(** * Storage and cache adapters: a shallow embedding

    The development follows the Go packages [config], [storage] and [cache]
    of the adapters repository.  Go strings are byte strings ([string]), Go
    [int] is [Z], Go [uint] is a [Z] in the range [0, 2^64).  Calls into the
    third-party drivers (MongoDB through mgm, go-micro's store, gocache) are
    recorded as typed requests of a small command tree; a driver is any
    handler answering those requests. *)

From Stdlib Require Import ZArith NArith Lia List Bool String Ascii.
From stdpp Require Import base option gmap strings.
From Stdlib Require Strings.Byte.

Import ListNotations.
Local Open Scope string_scope.
Local Open Scope Z_scope.

(* ===================================================================== *)
(** * Part I: definitions                                                 *)
(* ===================================================================== *)

(** ** Go's [strings.TrimSpace] *)

Module gostrings.

(** The bytes of a string, as numbers. *)
Definition codes (s : string) : list N :=
  List.map N_of_ascii (list_ascii_of_string s).

Definition of_codes (l : list N) : string :=
  string_of_list_ascii (List.map ascii_of_N l).

(** The table [asciiSpace] of package [strings]: tab, line feed, vertical
    tab, form feed, carriage return, space. *)
Definition asciiSpace (c : N) : bool :=
  (N.eqb c 9 || N.eqb c 10 || N.eqb c 11 || N.eqb c 12 || N.eqb c 13
   || N.eqb c 32)%bool.

(** Two-byte UTF-8 encodings of white space: U+0085 and U+00A0. *)
Definition space2 (a b : N) : bool :=
  (N.eqb a 194 && (N.eqb b 133 || N.eqb b 160))%bool.

(** Three-byte UTF-8 encodings of white space: U+1680, U+2000..U+200A,
    U+2028, U+2029, U+202F, U+205F and U+3000. *)
Definition space3 (a b c : N) : bool :=
  ((N.eqb a 225 && N.eqb b 154 && N.eqb c 128)
   || (N.eqb a 226 && N.eqb b 128
       && ((N.leb 128 c && N.leb c 138)
           || N.eqb c 168 || N.eqb c 169 || N.eqb c 175))
   || (N.eqb a 226 && N.eqb b 129 && N.eqb c 159)
   || (N.eqb a 227 && N.eqb b 128 && N.eqb c 128))%bool.

(** [unicode.IsSpace] on the encoding of one rune. *)
Definition spaceRune (r : list N) : bool :=
  match r with
  | [a] => asciiSpace a
  | [a; b] => space2 a b
  | [a; b; c] => space3 a b c
  | _ => false
  end.

(** [TrimLeftFunc s unicode.IsSpace]: drop white-space runes from the
    front. *)
Fixpoint trimLeft (s : list N) : list N :=
  match s with
  | [] => []
  | a :: t1 =>
      if asciiSpace a then trimLeft t1
      else match t1 with
           | [] => s
           | b :: t2 =>
               if space2 a b then trimLeft t2
               else match t2 with
                    | [] => s
                    | c :: t3 => if space3 a b c then trimLeft t3 else s
                    end
           end
  end.

(** The same from the back, on the reversed byte sequence (what
    [TrimRightFunc] does with [DecodeLastRuneInString]). *)
Fixpoint trimRev (r : list N) : list N :=
  match r with
  | [] => []
  | a :: t1 =>
      if asciiSpace a then trimRev t1
      else match t1 with
           | [] => r
           | b :: t2 =>
               if space2 b a then trimRev t2
               else match t2 with
                    | [] => r
                    | c :: t3 => if space3 c b a then trimRev t3 else r
                    end
           end
  end.

Definition trimRight (s : list N) : list N := rev (trimRev (rev s)).

(** [strings.TrimSpace]: leading white space is removed first, then
    trailing white space. *)
Definition TrimSpace (s : string) : string :=
  of_codes (trimRight (trimLeft (codes s))).

(** A byte sequence made of white-space runes only. *)
Inductive WhitespaceOnly : list N -> Prop :=
| ws_nil : WhitespaceOnly []
| ws_rune r s :
    spaceRune r = true -> WhitespaceOnly s -> WhitespaceOnly (r ++ s).

End gostrings.

(** ** Errors *)

(** Modelled from the spec: the error struct
    [InvalidConfigurationParameterError] of package [config] (the spec's
    ConfigurationError with its parameter and reason) and the package-level
    value [_errInvalidResultOption] of package [storage] (the spec's
    DecodeTargetMissing); their declarations are not among the sources.
    [DriverError] stands for any error value produced by a third-party
    driver. *)
Inductive Err : Type :=
| InvalidConfigurationParameterError (Parameter_ Reason : string)
| errInvalidResultOption
| DriverError (code : Z).

(** A Go [error]: [None] is [nil]. *)
Definition error : Type := option Err.

(** ** Package config *)

Module config.

Record StorageConfig : Type := mkStorageConfig {
  Storage_Type : Z;
  Storage_URL : string;
  Storage_DB : string
}.

(** [StorageConfig.Validate]: trims both strings in place, then checks the
    URL in either branch of the switch. *)
Definition StorageConfig_Validate (p : StorageConfig)
  : StorageConfig * error :=
  let p1 := mkStorageConfig (Storage_Type p)
              (gostrings.TrimSpace (Storage_URL p)) (Storage_DB p) in
  let p2 := mkStorageConfig (Storage_Type p1) (Storage_URL p1)
              (gostrings.TrimSpace (Storage_DB p1)) in
  if Z.eqb (Storage_Type p2) 1 then
    if String.eqb (Storage_URL p2) "" then
      (p2, Some (InvalidConfigurationParameterError
                   "URL" "MongoDB driver expects a valid url"))
    else (p2, None)
  else
    if String.eqb (Storage_URL p2) "" then
      (p2, Some (InvalidConfigurationParameterError
                   "URL" "MongoDB driver expects a valid url"))
    else (p2, None).

Record CacheConfig : Type := mkCacheConfig {
  Cache_Type : Z;
  Cache_Size : Z;
  Cache_Address : string;
  Cache_Username : string;
  Cache_Password : string;
  Cache_Database : Z
}.

(** [CacheConfig.Validate]: only type 2 is checked, and the address is
    compared as it is. *)
Definition CacheConfig_Validate (b : CacheConfig) : error :=
  if Z.eqb (Cache_Type b) 2 then
    if String.eqb (Cache_Address b) "" then
      Some (InvalidConfigurationParameterError
              "Address" "Redis cache must have a valid address")
    else None
  else None.

End config.

(** ** Contexts, after Go's package [context] *)

Module context.

Definition Session : Type := Z.

(** A context is the chain of wrappers put around [context.Background];
    [WithSession] is the session context of the MongoDB driver. *)
Inductive Context : Type :=
| Background
| WithDeadline (parent : Context) (deadline : Z)
| WithSession (parent : Context) (s : Session).

(** [ctx.Deadline()]: the earliest deadline along the chain. *)
Fixpoint Deadline (c : Context) : option Z :=
  match c with
  | Background => None
  | WithDeadline p d =>
      match Deadline p with
      | Some d' => Some (Z.min d' d)
      | None => Some d
      end
  | WithSession p _ => Deadline p
  end.

(** The session a context carries, if any (the innermost one). *)
Fixpoint SessionOf (c : Context) : option Session :=
  match c with
  | Background => None
  | WithDeadline p _ => SessionOf p
  | WithSession _ s => Some s
  end.

(** [time.Second], in nanoseconds. *)
Definition Second : Z := 1000000000.

End context.

Import context.

(** ** Values handed to the drivers *)

(** A Go [any]: the nil interface, a pointer to a caller-owned value, or a
    pointer to a go-micro [store.Record]. *)
Inductive any : Type :=
| Nil
| Ptr (addr : Z)
| RecordPtr (addr : Z).

Definition is_nil (a : any) : bool :=
  match a with Nil => true | _ => false end.

(** A bson document of field/value pairs ([bson.D], [bson.M]). *)
Definition bson : Type := list (string * string).

(** The gocache marshaler a cache is built on, described by the arguments
    it was constructed from. *)
Inductive Marshaler : Type :=
| FreecacheMarshaler (bytes : Z) (expiration : Z)
| RedisMarshaler (Addr Username Password : string) (DB : Z).

(** ** Machine integers *)

(** Conversion to a 64-bit signed integer, with wrap-around; also the
    result of [int] arithmetic. *)
Definition int64 (z : Z) : Z := (z + 2 ^ 63) mod 2 ^ 64 - 2 ^ 63.

(** ** go-micro's [store.Options] and the two options the selector uses *)

Module store.

Record Options : Type := mkOptions {
  Nodes : list string;
  Database : string;
  Table : string
}.

Definition zero : Options := mkOptions [] "" "".

Definition Option : Type := Options -> Options.

(** [store.Database(db)] *)
Definition WithDatabase (db : string) : Option :=
  fun o => mkOptions (Nodes o) db (Table o).

(** [store.Nodes(a...)]: the variadic arguments become the slice. *)
Definition WithNodes (a : list string) : Option :=
  fun o => mkOptions a (Database o) (Table o).

End store.

(** ** Requests to the third-party drivers *)

(** Every call that leaves the repository is a request; the index is the
    type of the reply. *)
Inductive Call : Type -> Type :=
(* mgm and the MongoDB driver *)
| SetDefaultConfig (CtxTimeout : Z) (db uri : string) : Call error
| Find (ctx : Context) (table : string) (filter : bson) (skip limit : Z)
    : Call (Err + Z)
| CursorAll (cur : Z) (ctx : Context) (result : any) : Call error
| CursorClose (cur : Z) (ctx : Context) : Call error
| FindOne (ctx : Context) (table : string) (filter : bson) : Call Z
| SingleResultDecode (sres : Z) (result : any) : Call error
| InsertOne (ctx : Context) (table : string) (payload : any) : Call error
| UpdateOne (ctx : Context) (table : string) (filter : bson) (set : any)
    : Call error
| DeleteOne (ctx : Context) (table : string) (filter : bson) : Call error
| StartSession : Call (Err + Session)
| StartTransaction (s : Session) : Call error
| CommitTransaction (s : Session) (sc : Context) : Call error
| EndSession (s : Session) (ctx : Context) : Call unit
(* the clock *)
| Now : Call Z
(* go-micro's in-memory store and mapstructure *)
| MemoryNewStore : Call Z
| StoreInit (st : Z) (opts : list (store.Options -> store.Options))
    : Call error
| StoreRead (st : Z) (key database table : string) (limit offset : Z)
    : Call (Err + Z)
| StoreList (st : Z) (database table : string) (limit offset : Z)
    (prefix suffix : string) : Call (Err + Z)
| StoreWrite (st : Z) (record : Z) (database table : string)
    (expiry ttl : Z) : Call error
| StoreDelete (st : Z) (key database table : string) : Call error
| MapstructureDecode (res : Z) (result : any) : Call error
(* the gocache marshaler *)
| MarshalerGet (m : Marshaler) (ctx : Context) (key : string)
    : Call (any * error)
| MarshalerSet (m : Marshaler) (ctx : Context) (key : string) (val : any)
    (expiration : Z) : Call error
| MarshalerDelete (m : Marshaler) (ctx : Context) (key : string)
    : Call error.

(** Ways a Go function ends without returning. *)
Inductive Abnormal : Type :=
| PanicIndexOutOfRange (index len : Z)
| LogFatal (e : Err).

(** ** Command trees *)

Inductive prog (A : Type) : Type :=
| Ret (a : A)
| Abort (ab : Abnormal)
| Do {X : Type} (c : Call X) (k : X -> prog A).

Arguments Ret {A} a.
Arguments Abort {A} ab.
Arguments Do {A X} c k.

Fixpoint bind {A B : Type} (m : prog A) (f : A -> prog B) : prog B :=
  match m with
  | Ret a => f a
  | Abort ab => Abort ab
  | Do c k => Do c (fun x => bind (k x) f)
  end.

Declare Scope prog_scope.
Delimit Scope prog_scope with prog.
Notation "x <- c ;; k" := (bind c (fun x => k))
  (at level 100, c at next level, right associativity) : prog_scope.
Notation "'call' x <- c ;; k" := (Do c (fun x => k))
  (at level 100, x name, c at next level, right associativity) : prog_scope.
Local Open Scope prog_scope.

(** A driver answers every request and may change its own state. *)
Definition handler (W : Type) : Type := forall X : Type, Call X -> W -> X * W.

(** One answered request. *)
Record Event : Type := Ev {
  ev_type : Type;
  ev_call : Call ev_type;
  ev_reply : ev_type
}.

Arguments Ev {ev_type} ev_call ev_reply.

Inductive Outcome (A : Type) : Type :=
| Returned (a : A)
| Aborted (ab : Abnormal).

Arguments Returned {A} a.
Arguments Aborted {A} ab.

Record Run (A W : Type) : Type := mkRun {
  outcome : Outcome A;
  final : W;
  trace : list Event
}.

Arguments mkRun {A W} outcome final trace.
Arguments outcome {A W} r.
Arguments final {A W} r.
Arguments trace {A W} r.

(** Running a command tree against a driver, recording the requests. *)
Fixpoint run {A W : Type} (h : handler W) (m : prog A) (w : W) : Run A W :=
  match m with
  | Ret a => mkRun (Returned a) w []
  | Abort ab => mkRun (Aborted ab) w []
  | Do c k =>
      let '(x, w1) := h _ c w in
      let r := run h (k x) w1 in
      mkRun (outcome r) (final r) (Ev c x :: trace r)
  end.

(** ** Package storage: the option model *)

Module ReadOptions.
Record t : Type := mk {
  Database : string;
  Table : string;
  Key : string;
  Value : string;
  Prefix : string;
  Suffix : string;
  Limit : Z;
  Offset : Z;
  Result : any
}.
Definition zero : t := mk "" "" "" "" "" "" 0 0 Nil.
End ReadOptions.

Module WriteOptions.
Record t : Type := mk {
  Database : string;
  Table : string;
  Key : string;
  Value : string;
  Expiry : Z;
  TTL : Z
}.
Definition zero : t := mk "" "" "" "" 0 0.
End WriteOptions.

Module DeleteOptions.
Record t : Type := mk {
  Database : string;
  Table : string;
  Key : string;
  Value : string
}.
Definition zero : t := mk "" "" "" "".
End DeleteOptions.

(** [for _, o := range opts { o(&ops) }]: the steps are applied from left to
    right to the one options value. *)
Definition applyOpts {O : Type} (opts : list (O -> O)) (ops : O) : O :=
  fold_left (fun acc o => o acc) opts ops.

Module storage.

Definition ReadOption : Type := ReadOptions.t -> ReadOptions.t.
Definition WriteOption : Type := WriteOptions.t -> WriteOptions.t.
Definition DeleteOption : Type := DeleteOptions.t -> DeleteOptions.t.

Section ReadSetters.
Import ReadOptions.

Definition ReadFrom (database table : string) : ReadOption :=
  fun l => mk database table (Key l) (Value l) (Prefix l) (Suffix l)
              (Limit l) (Offset l) (Result l).

Definition ReadKey (val : string) : ReadOption :=
  fun l => mk (Database l) (Table l) val (Value l) (Prefix l) (Suffix l)
              (Limit l) (Offset l) (Result l).

Definition ReadValue (val : string) : ReadOption :=
  fun l => mk (Database l) (Table l) (Key l) val (Prefix l) (Suffix l)
              (Limit l) (Offset l) (Result l).

Definition ReadPrefix (val : string) : ReadOption :=
  fun l => mk (Database l) (Table l) (Key l) (Value l) val (Suffix l)
              (Limit l) (Offset l) (Result l).

Definition ReadSuffix (val : string) : ReadOption :=
  fun l => mk (Database l) (Table l) (Key l) (Value l) (Prefix l) val
              (Limit l) (Offset l) (Result l).

Definition ReadLimit (val : Z) : ReadOption :=
  fun l => mk (Database l) (Table l) (Key l) (Value l) (Prefix l)
              (Suffix l) val (Offset l) (Result l).

Definition ReadOffset (val : Z) : ReadOption :=
  fun l => mk (Database l) (Table l) (Key l) (Value l) (Prefix l)
              (Suffix l) (Limit l) val (Result l).

Definition ReadResult (val : any) : ReadOption :=
  fun l => mk (Database l) (Table l) (Key l) (Value l) (Prefix l)
              (Suffix l) (Limit l) (Offset l) val.
End ReadSetters.

Section WriteSetters.
Import WriteOptions.

Definition WriteTo (database table : string) : WriteOption :=
  fun w => mk database table (Key w) (Value w) (Expiry w) (TTL w).

Definition WriteKey (val : string) : WriteOption :=
  fun w => mk (Database w) (Table w) val (Value w) (Expiry w) (TTL w).

Definition WriteValue (val : string) : WriteOption :=
  fun w => mk (Database w) (Table w) (Key w) val (Expiry w) (TTL w).

Definition WriteExpiry (val : Z) : WriteOption :=
  fun w => mk (Database w) (Table w) (Key w) (Value w) val (TTL w).

Definition WriteTTL (val : Z) : WriteOption :=
  fun w => mk (Database w) (Table w) (Key w) (Value w) (Expiry w) val.
End WriteSetters.

Section DeleteSetters.
Import DeleteOptions.

Definition DeleteFrom (database table : string) : DeleteOption :=
  fun d => mk database table (Key d) (Value d).

Definition DeleteKey (val : string) : DeleteOption :=
  fun d => mk (Database d) (Table d) val (Value d).

Definition DeleteValue (val : string) : DeleteOption :=
  fun d => mk (Database d) (Table d) (Key d) val.
End DeleteSetters.

End storage.

(** ** mgm's transaction helper *)

(** [mgm.TransactionWithCtx] (third-party): start a session on the default
    client, start a transaction on it, run the callback with the session
    and the session context built from [ctx], and end the session when the
    helper returns. *)
Definition TransactionWithCtx (ctx : Context)
    (f : Session -> Context -> prog error) : prog error :=
  call r <- StartSession ;;
  match r with
  | inl err => Ret (Some err)
  | inr session =>
      call e <- StartTransaction session ;;
      match e with
      | Some err => call _ <- EndSession session ctx ;; Ret (Some err)
      | None =>
          res <- f session (WithSession ctx session) ;;
          call _ <- EndSession session ctx ;;
          Ret res
      end
  end.

(** ** Package storage: the document-oriented variant *)

Module mongo.

Record mongoStore : Type := mkMongoStore { options : store.Options }.

Definition NewMongoStore : mongoStore := mkMongoStore store.zero.

(** [configure]: [s.options.Nodes[0]] is evaluated among the arguments,
    before [mgm.SetDefaultConfig] is entered. *)
Definition configure (s : mongoStore) : prog error :=
  match store.Nodes (options s) with
  | [] => Abort (PanicIndexOutOfRange 0 0)
  | node0 :: _ =>
      call e <- SetDefaultConfig (3 * Second)
                  (store.Database (options s)) node0 ;;
      Ret e
  end.

Definition Init (s : mongoStore) (opts : list store.Option)
  : prog (mongoStore * error) :=
  let s1 := mkMongoStore (applyOpts opts (options s)) in
  e <- configure s1 ;;
  Ret (s1, e).

Definition List (s : mongoStore) (ctx : Context)
    (opts : list storage.ReadOption) : prog error :=
  let ops := applyOpts opts ReadOptions.zero in
  call r <- Find ctx (ReadOptions.Table ops) []
              (int64 (ReadOptions.Offset ops))
              (int64 (ReadOptions.Limit ops)) ;;
  match r with
  | inl err => Ret (Some err)
  | inr cur =>
      if is_nil (ReadOptions.Result ops) then
        Ret (Some errInvalidResultOption)
      else
        call e <- CursorAll cur ctx (ReadOptions.Result ops) ;;
        match e with
        | Some err => Ret (Some err)
        | None => call e2 <- CursorClose cur ctx ;; Ret e2
        end
  end.

Definition Read (s : mongoStore) (ctx : Context)
    (opts : list storage.ReadOption) : prog error :=
  let options := applyOpts opts ReadOptions.zero in
  call sres <- FindOne ctx (ReadOptions.Table options)
                 [(ReadOptions.Key options, ReadOptions.Value options)] ;;
  if is_nil (ReadOptions.Result options) then
    Ret (Some errInvalidResultOption)
  else
    call e <- SingleResultDecode sres (ReadOptions.Result options) ;;
    match e with
    | Some err => Ret (Some err)
    | None => Ret None
    end.

(** The collection call receives the caller's [ctx]; the commit receives
    the session context [sc]. *)
Definition Write (s : mongoStore) (ctx : Context) (payload : any)
    (opts : list storage.WriteOption) : prog error :=
  let options := applyOpts opts WriteOptions.zero in
  TransactionWithCtx ctx (fun session sc =>
    call e <- InsertOne ctx (WriteOptions.Table options) payload ;;
    match e with
    | Some err => Ret (Some err)
    | None => call e2 <- CommitTransaction session sc ;; Ret e2
    end).

Definition Update (s : mongoStore) (ctx : Context) (payload : any)
    (opts : list storage.WriteOption) : prog error :=
  let options := applyOpts opts WriteOptions.zero in
  TransactionWithCtx ctx (fun session sc =>
    call e <- UpdateOne ctx (WriteOptions.Table options)
                [(WriteOptions.Key options, WriteOptions.Value options)]
                payload ;;
    match e with
    | Some err => Ret (Some err)
    | None => call e2 <- CommitTransaction session sc ;; Ret e2
    end).

(** [Delete] replaces the caller's context by
    [context.WithTimeout(context.Background(), 3*time.Second)], whose
    deadline is three seconds after the clock reading. *)
Definition Delete (s : mongoStore) (ctx : Context)
    (opts : list storage.DeleteOption) : prog error :=
  let options := applyOpts opts DeleteOptions.zero in
  call now <- Now ;;
  let ctx := WithDeadline Background (now + 3 * Second) in
  TransactionWithCtx ctx (fun session sc =>
    call e <- DeleteOne ctx (DeleteOptions.Table options)
                [(DeleteOptions.Key options, DeleteOptions.Value options)] ;;
    match e with
    | Some err => Ret (Some err)
    | None => call e2 <- CommitTransaction session sc ;; Ret e2
    end).

Definition Options (s : mongoStore) : store.Options := options s.

Definition String (s : mongoStore) : string := "mongodb".

End mongo.

(** ** Package storage: the no-op variant *)

Module empty.

Definition Init (opts : list store.Option) : prog error := Ret None.

Definition List (ctx : Context) (opts : list storage.ReadOption)
  : prog error := Ret None.

Definition Read (ctx : Context) (opts : list storage.ReadOption)
  : prog error := Ret None.

Definition Write (ctx : Context) (payload : any)
    (opts : list storage.WriteOption) : prog error := Ret None.

Definition Update (ctx : Context) (payload : any)
    (opts : list storage.WriteOption) : prog error := Ret None.

Definition Delete (ctx : Context) (opts : list storage.DeleteOption)
  : prog error := Ret None.

Definition Options : store.Options := store.zero.

Definition String : string := "empty".

End empty.

(** ** Package storage: the in-memory variant *)

Module memory.

(** The wrapped go-micro store, by its handle. *)
Record memoryStore : Type := mkMemoryStore { store_ : Z }.

Definition NewMemoryStore : prog memoryStore :=
  call st <- MemoryNewStore ;; Ret (mkMemoryStore st).

Definition Init (s : memoryStore) (opts : list store.Option) : prog error :=
  call e <- StoreInit (store_ s) opts ;; Ret e.

Definition List (s : memoryStore) (ctx : Context)
    (opts : list storage.ReadOption) : prog error :=
  let ops := applyOpts opts ReadOptions.zero in
  call r <- StoreList (store_ s) (ReadOptions.Database ops)
              (ReadOptions.Table ops) (ReadOptions.Limit ops)
              (ReadOptions.Offset ops) (ReadOptions.Prefix ops)
              (ReadOptions.Suffix ops) ;;
  match r with
  | inl err => Ret (Some err)
  | inr res =>
      call e <- MapstructureDecode res (ReadOptions.Result ops) ;; Ret e
  end.

Definition Read (s : memoryStore) (ctx : Context)
    (opts : list storage.ReadOption) : prog error :=
  let ops := applyOpts opts ReadOptions.zero in
  call r <- StoreRead (store_ s) (ReadOptions.Key ops)
              (ReadOptions.Database ops) (ReadOptions.Table ops)
              (ReadOptions.Limit ops) (ReadOptions.Offset ops) ;;
  match r with
  | inl err => Ret (Some err)
  | inr res =>
      call e <- MapstructureDecode res (ReadOptions.Result ops) ;; Ret e
  end.

(** The payload must be a [*store.Record]; anything else is refused with
    [errInvalidResultOption]. *)
Definition Write (s : memoryStore) (ctx : Context) (payload : any)
    (opts : list storage.WriteOption) : prog error :=
  let ops := applyOpts opts WriteOptions.zero in
  match payload with
  | RecordPtr p =>
      call e <- StoreWrite (store_ s) p (WriteOptions.Database ops)
                  (WriteOptions.Table ops) (WriteOptions.Expiry ops)
                  (WriteOptions.TTL ops) ;;
      Ret e
  | _ => Ret (Some errInvalidResultOption)
  end.

Definition Update (s : memoryStore) (ctx : Context) (payload : any)
    (opts : list storage.WriteOption) : prog error :=
  Write s ctx payload opts.

Definition Delete (s : memoryStore) (ctx : Context)
    (opts : list storage.DeleteOption) : prog error :=
  let ops := applyOpts opts DeleteOptions.zero in
  call e <- StoreDelete (store_ s) (DeleteOptions.Key ops)
              (DeleteOptions.Database ops) (DeleteOptions.Table ops) ;;
  Ret e.

End memory.

(** ** The interface [RefinedStore] and the selector *)

(** The implementations of the interface; a method call on a
    [RefinedStore] goes to the method of the variant. *)
Inductive RefinedStore : Type :=
| MongoStore (s : mongo.mongoStore)
| EmptyStore
| MemoryStore (s : memory.memoryStore).

(** [Init] has a pointer receiver: the store comes back with the error. *)
Definition RefinedStore_Init (s : RefinedStore) (opts : list store.Option)
  : prog (RefinedStore * error) :=
  match s with
  | MongoStore m =>
      r <- mongo.Init m opts ;; Ret (MongoStore (fst r), snd r)
  | EmptyStore => e <- empty.Init opts ;; Ret (EmptyStore, e)
  | MemoryStore m => e <- memory.Init m opts ;; Ret (MemoryStore m, e)
  end.

Definition RefinedStore_List (s : RefinedStore) (ctx : Context)
    (opts : list storage.ReadOption) : prog error :=
  match s with
  | MongoStore m => mongo.List m ctx opts
  | EmptyStore => empty.List ctx opts
  | MemoryStore m => memory.List m ctx opts
  end.

Definition RefinedStore_Read (s : RefinedStore) (ctx : Context)
    (opts : list storage.ReadOption) : prog error :=
  match s with
  | MongoStore m => mongo.Read m ctx opts
  | EmptyStore => empty.Read ctx opts
  | MemoryStore m => memory.Read m ctx opts
  end.

Definition RefinedStore_Write (s : RefinedStore) (ctx : Context)
    (payload : any) (opts : list storage.WriteOption) : prog error :=
  match s with
  | MongoStore m => mongo.Write m ctx payload opts
  | EmptyStore => empty.Write ctx payload opts
  | MemoryStore m => memory.Write m ctx payload opts
  end.

Definition RefinedStore_Update (s : RefinedStore) (ctx : Context)
    (payload : any) (opts : list storage.WriteOption) : prog error :=
  match s with
  | MongoStore m => mongo.Update m ctx payload opts
  | EmptyStore => empty.Update ctx payload opts
  | MemoryStore m => memory.Update m ctx payload opts
  end.

Definition RefinedStore_Delete (s : RefinedStore) (ctx : Context)
    (opts : list storage.DeleteOption) : prog error :=
  match s with
  | MongoStore m => mongo.Delete m ctx opts
  | EmptyStore => empty.Delete ctx opts
  | MemoryStore m => memory.Delete m ctx opts
  end.

(** [NewStorage]: the switch on [config.Storage.Type], then [Init] with the
    database and the one node; an [Init] error ends the process in
    [log.Fatalln]. *)
Definition NewStorage (cfg : config.StorageConfig) : prog RefinedStore :=
  let s := if Z.eqb (config.Storage_Type cfg) 1
           then MongoStore mongo.NewMongoStore
           else EmptyStore in
  r <- RefinedStore_Init s
         [store.WithDatabase (config.Storage_DB cfg);
          store.WithNodes [config.Storage_URL cfg]] ;;
  match snd r with
  | Some err => Abort (LogFatal err)
  | None => Ret (fst r)
  end.

(** ** Package cache *)

Module cache.

Record CustomCache : Type := mkCustomCache {
  store_ : Marshaler;
  name : string
}.

(** [newMemory]: a freecache of [size*1024*1024] bytes with a default
    expiration of ten seconds. *)
Definition newMemory (size : Z) : Marshaler :=
  FreecacheMarshaler (int64 (int64 (size * 1024) * 1024)) (10 * Second).

Definition newRedis (address username password : string) (db : Z)
  : Marshaler :=
  RedisMarshaler address username password db.

Definition Get (c : CustomCache) (ctx : Context) (key : string)
  : prog (any * Z * error) :=
  call r <- MarshalerGet (store_ c) ctx key ;;
  call now <- Now ;;
  Ret (fst r, now, snd r).

Definition Put (c : CustomCache) (ctx : Context) (key : string)
    (val : any) (d : Z) : prog error :=
  call e <- MarshalerSet (store_ c) ctx key val d ;; Ret e.

Definition Delete (c : CustomCache) (ctx : Context) (key : string)
  : prog error :=
  call e <- MarshalerDelete (store_ c) ctx key ;; Ret e.

Definition String (c : CustomCache) : string := name c.

Definition NewCache (cfg : config.CacheConfig) : CustomCache :=
  if Z.eqb (config.Cache_Type cfg) 1 then
    mkCustomCache (newMemory (config.Cache_Size cfg)) "Freecache"
  else if Z.eqb (config.Cache_Type cfg) 2 then
    mkCustomCache
      (newRedis (config.Cache_Address cfg) (config.Cache_Username cfg)
         (config.Cache_Password cfg) (config.Cache_Database cfg))
      "Redis"
  else
    mkCustomCache (newMemory (config.Cache_Size cfg)) "Freecache".

End cache.

(** ** The builder steps as data *)

(** The setters of the option model, one constructor per exported
    function, so that statements can range over all of them. *)
Module steps.

Inductive Field : Type :=
| FDatabase | FTable | FKey | FValue | FPrefix | FSuffix
| FLimit | FOffset | FResult | FExpiry | FTTL.

Inductive FieldVal : Type :=
| VString (s : string)
| VInt (z : Z)
| VAny (a : any).

Inductive ReadStep : Type :=
| SReadFrom (database table : string)
| SReadKey (val : string)
| SReadValue (val : string)
| SReadPrefix (val : string)
| SReadSuffix (val : string)
| SReadLimit (val : Z)
| SReadOffset (val : Z)
| SReadResult (val : any).

Inductive WriteStep : Type :=
| SWriteTo (database table : string)
| SWriteKey (val : string)
| SWriteValue (val : string)
| SWriteExpiry (val : Z)
| SWriteTTL (val : Z).

Inductive DeleteStep : Type :=
| SDeleteFrom (database table : string)
| SDeleteKey (val : string)
| SDeleteValue (val : string).

(** The setter a step stands for. *)
Definition readOption (s : ReadStep) : storage.ReadOption :=
  match s with
  | SReadFrom d t => storage.ReadFrom d t
  | SReadKey v => storage.ReadKey v
  | SReadValue v => storage.ReadValue v
  | SReadPrefix v => storage.ReadPrefix v
  | SReadSuffix v => storage.ReadSuffix v
  | SReadLimit v => storage.ReadLimit v
  | SReadOffset v => storage.ReadOffset v
  | SReadResult v => storage.ReadResult v
  end.

Definition writeOption (s : WriteStep) : storage.WriteOption :=
  match s with
  | SWriteTo d t => storage.WriteTo d t
  | SWriteKey v => storage.WriteKey v
  | SWriteValue v => storage.WriteValue v
  | SWriteExpiry v => storage.WriteExpiry v
  | SWriteTTL v => storage.WriteTTL v
  end.

Definition deleteOption (s : DeleteStep) : storage.DeleteOption :=
  match s with
  | SDeleteFrom d t => storage.DeleteFrom d t
  | SDeleteKey v => storage.DeleteKey v
  | SDeleteValue v => storage.DeleteValue v
  end.

(** The assignments in the body of each setter. *)
Definition readSets (s : ReadStep) : list (Field * FieldVal) :=
  match s with
  | SReadFrom d t => [(FDatabase, VString d); (FTable, VString t)]
  | SReadKey v => [(FKey, VString v)]
  | SReadValue v => [(FValue, VString v)]
  | SReadPrefix v => [(FPrefix, VString v)]
  | SReadSuffix v => [(FSuffix, VString v)]
  | SReadLimit v => [(FLimit, VInt v)]
  | SReadOffset v => [(FOffset, VInt v)]
  | SReadResult v => [(FResult, VAny v)]
  end.

Definition writeSets (s : WriteStep) : list (Field * FieldVal) :=
  match s with
  | SWriteTo d t => [(FDatabase, VString d); (FTable, VString t)]
  | SWriteKey v => [(FKey, VString v)]
  | SWriteValue v => [(FValue, VString v)]
  | SWriteExpiry v => [(FExpiry, VInt v)]
  | SWriteTTL v => [(FTTL, VInt v)]
  end.

Definition deleteSets (s : DeleteStep) : list (Field * FieldVal) :=
  match s with
  | SDeleteFrom d t => [(FDatabase, VString d); (FTable, VString t)]
  | SDeleteKey v => [(FKey, VString v)]
  | SDeleteValue v => [(FValue, VString v)]
  end.

(** Reading a field of an options value. *)
Definition readGet (f : Field) (o : ReadOptions.t) : option FieldVal :=
  match f with
  | FDatabase => Some (VString (ReadOptions.Database o))
  | FTable => Some (VString (ReadOptions.Table o))
  | FKey => Some (VString (ReadOptions.Key o))
  | FValue => Some (VString (ReadOptions.Value o))
  | FPrefix => Some (VString (ReadOptions.Prefix o))
  | FSuffix => Some (VString (ReadOptions.Suffix o))
  | FLimit => Some (VInt (ReadOptions.Limit o))
  | FOffset => Some (VInt (ReadOptions.Offset o))
  | FResult => Some (VAny (ReadOptions.Result o))
  | FExpiry | FTTL => None
  end.

Definition writeGet (f : Field) (o : WriteOptions.t) : option FieldVal :=
  match f with
  | FDatabase => Some (VString (WriteOptions.Database o))
  | FTable => Some (VString (WriteOptions.Table o))
  | FKey => Some (VString (WriteOptions.Key o))
  | FValue => Some (VString (WriteOptions.Value o))
  | FExpiry => Some (VInt (WriteOptions.Expiry o))
  | FTTL => Some (VInt (WriteOptions.TTL o))
  | _ => None
  end.

Definition deleteGet (f : Field) (o : DeleteOptions.t) : option FieldVal :=
  match f with
  | FDatabase => Some (VString (DeleteOptions.Database o))
  | FTable => Some (VString (DeleteOptions.Table o))
  | FKey => Some (VString (DeleteOptions.Key o))
  | FValue => Some (VString (DeleteOptions.Value o))
  | _ => None
  end.

(** The fields a list of assignments touches, and disjointness of two such
    lists. *)
Definition fields (l : list (Field * FieldVal)) : list Field :=
  List.map fst l.

Definition distinct (l1 l2 : list (Field * FieldVal)) : Prop :=
  forall f, In f (fields l1) -> In f (fields l2) -> False.

End steps.

(** ** Looking at requests and traces *)

(** The context a request was issued under, for the requests that take
    one. *)
Definition call_ctx {X : Type} (c : Call X) : option Context :=
  match c with
  | Find ctx _ _ _ _ => Some ctx
  | CursorAll _ ctx _ => Some ctx
  | CursorClose _ ctx => Some ctx
  | FindOne ctx _ _ => Some ctx
  | InsertOne ctx _ _ => Some ctx
  | UpdateOne ctx _ _ _ => Some ctx
  | DeleteOne ctx _ _ => Some ctx
  | CommitTransaction _ sc => Some sc
  | EndSession _ ctx => Some ctx
  | MarshalerGet _ ctx _ => Some ctx
  | MarshalerSet _ ctx _ _ _ => Some ctx
  | MarshalerDelete _ ctx _ => Some ctx
  | _ => None
  end.

(** The request, if it takes a context, is issued under the deadline
    [d]. *)
Definition has_deadline (d : option Z) (X : Type) (c : Call X) : Prop :=
  forall ctx, call_ctx c = Some ctx -> Deadline ctx = d.

(** Every context-carrying request of a trace has the deadline [d]. *)
Definition deadlines_are (d : option Z) (tr : list Event) : Prop :=
  Forall (fun e => has_deadline d _ (ev_call e)) tr.

Definition is_doc_op (e : Event) : bool :=
  match ev_call e with
  | InsertOne _ _ _ | UpdateOne _ _ _ _ | DeleteOne _ _ _ => true
  | _ => false
  end.

Definition is_commit (e : Event) : bool :=
  match ev_call e with
  | CommitTransaction _ _ => true
  | _ => false
  end.

Definition is_start_session (e : Event) : bool :=
  match ev_call e with
  | StartSession => true
  | _ => false
  end.

Definition is_end_session (e : Event) : bool :=
  match ev_call e with
  | EndSession _ _ => true
  | _ => false
  end.

(** The error a request answered by a Go [error] came back with. *)
Definition reply_error (e : Event) : error :=
  match e with
  | Ev c r =>
      match c in Call X return X -> error with
      | InsertOne _ _ _ => fun r => r
      | UpdateOne _ _ _ _ => fun r => r
      | DeleteOne _ _ _ => fun r => r
      | StartTransaction _ => fun r => r
      | CommitTransaction _ _ => fun r => r
      | _ => fun _ => None
      end r
  end.

(** A transaction is open from a [StartTransaction] answered with nil. *)
Definition opens_transaction (e : Event) : bool :=
  match ev_call e with
  | StartTransaction _ =>
      match reply_error e with None => true | Some _ => false end
  | _ => false
  end.

(** In the order of the trace, every document operation comes between the
    start of a transaction and the commit or the end of the session; [open]
    tells whether a transaction is open at the head of the trace.  This is
    about the order of the requests only: whether an operation belongs to
    the transaction is a matter of the context it is issued under
    ([ev_session] below). *)
Fixpoint ops_inside_transaction (open : bool) (tr : list Event) : bool :=
  match tr with
  | [] => true
  | e :: tr' =>
      if is_doc_op e then open && ops_inside_transaction open tr'
      else if opens_transaction e then ops_inside_transaction true tr'
      else if is_commit e || is_end_session e
           then ops_inside_transaction false tr'
      else ops_inside_transaction open tr'
  end.

(** A [StartSession] that returned a session. *)
Definition started_session (e : Event) : bool :=
  match e with
  | Ev c r =>
      match c in Call X return X -> bool with
      | StartSession =>
          fun r => match r with inr _ => true | inl _ => false end
      | _ => fun _ => false
      end r
  end.

(** The order of the requests of one mutating call: one session is asked
    for and, when granted, ended by the last request; at most one document
    operation is issued, exactly one once the transaction is open, and
    only after its start and before the commit; a commit is issued only
    after the document operation came back with nil. *)
Record transaction_discipline (tr : list Event) : Prop := {
  one_session : length (List.filter is_start_session tr) = 1%nat;
  session_ended :
    existsb started_session tr = true ->
    exists e, last tr = Some e /\ is_end_session e = true;
  at_most_one_op : (length (List.filter is_doc_op tr) <= 1)%nat;
  one_op_when_open :
    existsb opens_transaction tr = true ->
    length (List.filter is_doc_op tr) = 1%nat;
  ops_inside : ops_inside_transaction false tr = true;
  commit_after_success :
    existsb is_commit tr = true ->
    exists e, List.find is_doc_op tr = Some e /\ reply_error e = None
}.

(** The request, if it is a document operation, is issued under a context
    that carries the session [s] (or none). *)
Definition doc_op_session (s : option Session) (X : Type) (c : Call X)
  : Prop :=
  match c with
  | InsertOne ctx _ _ | UpdateOne ctx _ _ _ | DeleteOne ctx _ _ =>
      SessionOf ctx = s
  | _ => True
  end.

(** A property of every request a command tree can issue, whatever the
    replies. *)
Fixpoint AllCalls {A : Type} (P : forall X, Call X -> Prop) (m : prog A)
  : Prop :=
  match m with
  | Ret _ => True
  | Abort _ => True
  | Do c k => P _ c /\ forall x, AllCalls P (k x)
  end.

(** The three mutating methods, called on the document-oriented variant. *)
Inductive Mutation : Type :=
| MWrite (payload : any) (opts : list storage.WriteOption)
| MUpdate (payload : any) (opts : list storage.WriteOption)
| MDelete (opts : list storage.DeleteOption).

Definition mongo_mutate (s : mongo.mongoStore) (ctx : Context)
    (m : Mutation) : prog error :=
  match m with
  | MWrite payload opts => RefinedStore_Write (MongoStore s) ctx payload opts
  | MUpdate payload opts =>
      RefinedStore_Update (MongoStore s) ctx payload opts
  | MDelete opts => RefinedStore_Delete (MongoStore s) ctx opts
  end.

(** The session carried by the context a request was issued under. *)
Definition ev_session (e : Event) : option Session :=
  match call_ctx (ev_call e) with
  | Some c => SessionOf c
  | None => None
  end.

(** [Write] as the specification words it, for comparison: the one
    document operation is issued under the session context [sc], inside
    the transaction the helper opened. *)
Definition Write_in_transaction (ctx : Context) (payload : any)
    (opts : list storage.WriteOption) : prog error :=
  let options := applyOpts opts WriteOptions.zero in
  TransactionWithCtx ctx (fun session sc =>
    call e <- InsertOne sc (WriteOptions.Table options) payload ;;
    match e with
    | Some err => Ret (Some err)
    | None => call e2 <- CommitTransaction session sc ;; Ret e2
    end).

(** ** A small in-memory driver *)

(** A driver simple enough to compute with: documents per table, cache
    entries with their expiry, a clock that advances at each reading, and a
    counter for session ids.  It refuses nil documents and nil decode
    targets and an empty connection string. *)
Module memdriver.

Record World : Type := mkWorld {
  docs : gmap string (list any);
  entries : gmap string (any * Z);
  clock : Z;
  sessions : Z
}.

Definition start : World := mkWorld ∅ ∅ 0 0.

Definition table_docs (w : World) (table : string) : list any :=
  default [] (docs w !! table).

Definition set_docs (w : World) (table : string) (l : list any) : World :=
  mkWorld (<[table := l]> (docs w)) (entries w) (clock w) (sessions w).

Definition set_entries (w : World) (m : gmap string (any * Z)) : World :=
  mkWorld (docs w) m (clock w) (sessions w).

Definition nil_check (code : Z) (a : any) : error :=
  if is_nil a then Some (DriverError code) else None.

Definition handle : handler World :=
  fun X c =>
    match c in Call X return World -> X * World with
    | SetDefaultConfig _ _ uri =>
        fun w => (if String.eqb uri "" then Some (DriverError 1) else None, w)
    | Find _ _ _ _ _ => fun w => (inr 0, w)
    | CursorAll _ _ result => fun w => (nil_check 2 result, w)
    | CursorClose _ _ => fun w => (None, w)
    | FindOne _ _ _ => fun w => (0, w)
    | SingleResultDecode _ result => fun w => (nil_check 2 result, w)
    | InsertOne _ table payload =>
        fun w =>
          if is_nil payload then (Some (DriverError 3), w)
          else (None, set_docs w table (payload :: table_docs w table))
    | UpdateOne _ _ _ set => fun w => (nil_check 3 set, w)
    | DeleteOne _ table _ =>
        fun w => (None, set_docs w table (tl (table_docs w table)))
    | StartSession =>
        fun w => (inr (sessions w),
                  mkWorld (docs w) (entries w) (clock w) (sessions w + 1))
    | StartTransaction _ => fun w => (None, w)
    | CommitTransaction _ _ => fun w => (None, w)
    | EndSession _ _ => fun w => (tt, w)
    | Now =>
        fun w => (clock w,
                  mkWorld (docs w) (entries w) (clock w + 1) (sessions w))
    | MemoryNewStore => fun w => (0, w)
    | StoreInit _ _ => fun w => (None, w)
    | StoreRead _ _ _ _ _ _ => fun w => (inl (DriverError 404), w)
    | StoreList _ _ _ _ _ _ _ => fun w => (inr 0, w)
    | StoreWrite _ _ _ _ _ _ => fun w => (None, w)
    | StoreDelete _ _ _ _ => fun w => (None, w)
    | MapstructureDecode _ result => fun w => (nil_check 4 result, w)
    | MarshalerGet _ _ key =>
        fun w =>
          match entries w !! key with
          | Some (v, expiry) =>
              if Z.ltb (clock w) expiry then ((v, None), w)
              else ((Nil, Some (DriverError 5)), w)
          | None => ((Nil, Some (DriverError 5)), w)
          end
    | MarshalerSet _ _ key val expiration =>
        fun w =>
          (None, set_entries w (<[key := (val, clock w + expiration)]> (entries w)))
    | MarshalerDelete _ _ key =>
        fun w => (None, set_entries w (delete key (entries w)))
    end.

End memdriver.

(** ** A driver whose cache keeps encodings *)

(** The gocache marshaler keeps an encoding of the value and, on [Get],
    decodes it into the target it is given.  The facade passes an untyped
    target ([var result interface{}]), so what comes back is a generic
    value: a [*store.Record] that was put in comes back as a value that is
    no longer a [*store.Record].  Everything else is as in the in-memory
    driver. *)
Module codecdriver.

Definition decoded (v : any) : any :=
  match v with
  | RecordPtr a => Ptr a
  | _ => v
  end.

Definition handle : handler memdriver.World :=
  fun X c =>
    match c in Call X return memdriver.World -> X * memdriver.World with
    | MarshalerGet m ctx key =>
        fun w =>
          let r := memdriver.handle _ (MarshalerGet m ctx key) w in
          ((decoded (fst (fst r)), snd (fst r)), snd r)
    | c' => memdriver.handle _ c'
    end.

End codecdriver.

(** ** A driver with transactions *)

(** On the MongoDB driver a document operation belongs to a transaction
    only when the context it is issued under is the session context of
    that transaction; issued under any other context it is carried out at
    once, outside the transaction.  This driver follows insertions: it
    holds the documents every reader sees and, per session with an open
    transaction, the documents inserted under it and not committed yet.  A
    commit makes them visible, unless the driver was started refusing
    commits; the end of a session drops what it did not commit. *)
Module txdriver.

Record World : Type := mkWorld {
  docs : gmap string (list any);
  pending : gmap Z (list (string * any));
  sessions : Z;
  commits : bool
}.

Definition start (commits : bool) : World := mkWorld ∅ ∅ 0 commits.

Definition insert_doc (op : string * any) (d : gmap string (list any))
  : gmap string (list any) :=
  <[fst op := snd op :: default [] (d !! fst op)]> d.

(** The open transaction a context belongs to. *)
Definition in_transaction (w : World) (ctx : Context) : option Session :=
  match SessionOf ctx with
  | Some s =>
      match pending w !! s with
      | Some _ => Some s
      | None => None
      end
  | None => None
  end.

Definition handle : handler World :=
  fun X c =>
    match c in Call X return World -> X * World with
    | SetDefaultConfig _ _ _ => fun w => (None, w)
    | Find _ _ _ _ _ => fun w => (inr 0, w)
    | CursorAll _ _ _ => fun w => (None, w)
    | CursorClose _ _ => fun w => (None, w)
    | FindOne _ _ _ => fun w => (0, w)
    | SingleResultDecode _ _ => fun w => (None, w)
    | InsertOne ctx table payload =>
        fun w =>
          match in_transaction w ctx with
          | Some s =>
              (None,
               mkWorld (docs w)
                 (<[s := (table, payload) :: default [] (pending w !! s)]>
                    (pending w))
                 (sessions w) (commits w))
          | None =>
              (None,
               mkWorld (insert_doc (table, payload) (docs w)) (pending w)
                 (sessions w) (commits w))
          end
    | UpdateOne _ _ _ _ => fun w => (None, w)
    | DeleteOne _ _ _ => fun w => (None, w)
    | StartSession =>
        fun w => (inr (sessions w),
                  mkWorld (docs w) (pending w) (sessions w + 1) (commits w))
    | StartTransaction s =>
        fun w => (None,
                  mkWorld (docs w) (<[s := []]> (pending w)) (sessions w)
                    (commits w))
    | CommitTransaction s _ =>
        fun w =>
          if commits w then
            (None,
             mkWorld
               (fold_right insert_doc (docs w) (default [] (pending w !! s)))
               (delete s (pending w)) (sessions w) (commits w))
          else (Some (DriverError 6), w)
    | EndSession s _ =>
        fun w => (tt,
                  mkWorld (docs w) (delete s (pending w)) (sessions w)
                    (commits w))
    | Now => fun w => (0, w)
    | MemoryNewStore => fun w => (0, w)
    | StoreInit _ _ => fun w => (None, w)
    | StoreRead _ _ _ _ _ _ => fun w => (inl (DriverError 404), w)
    | StoreList _ _ _ _ _ _ _ => fun w => (inr 0, w)
    | StoreWrite _ _ _ _ _ _ => fun w => (None, w)
    | StoreDelete _ _ _ _ => fun w => (None, w)
    | MapstructureDecode _ _ => fun w => (None, w)
    | MarshalerGet _ _ _ => fun w => ((Nil, Some (DriverError 5)), w)
    | MarshalerSet _ _ _ _ _ => fun w => (None, w)
    | MarshalerDelete _ _ _ => fun w => (None, w)
    end.

End txdriver.

(** ** Package config: the server and broker configurations *)

Module serverconfig.

Record ServerConfig : Type := mkServerConfig {
  Namespace : string;
  Name : string;
  Version : string;
  Address : string;
  ReplAddress : string;
  Debug : bool
}.

(** [ServerConfig.Validate]: the four names are trimmed in place first,
    then checked in the order namespace, name, address, repl address. *)
Definition Validate (hs : ServerConfig) : ServerConfig * error :=
  let hs1 := mkServerConfig
               (gostrings.TrimSpace (Namespace hs))
               (gostrings.TrimSpace (Name hs))
               (Version hs)
               (gostrings.TrimSpace (Address hs))
               (gostrings.TrimSpace (ReplAddress hs))
               (Debug hs) in
  if String.eqb (Namespace hs1) "" then
    (hs1, Some (InvalidConfigurationParameterError
                  "Namespace" "Should not be empty"))
  else if String.eqb (Name hs1) "" then
    (hs1, Some (InvalidConfigurationParameterError
                  "Name" "Should not be empty"))
  else if String.eqb (Address hs1) "" then
    (hs1, Some (InvalidConfigurationParameterError
                  "Address" "Should not be empty"))
  else if String.eqb (ReplAddress hs1) "" then
    (hs1, Some (InvalidConfigurationParameterError
                  "Repl Address" "Should not be empty"))
  else (hs1, None).

End serverconfig.

Module brokerconfig.

Record BrokerConfig : Type := mkBrokerConfig {
  Enable : bool;
  Addrs : list string;
  Type_ : Z;
  DisableAutoAck : bool;
  Durable : bool;
  AckOnSuccess : bool;
  RequeueOnError : bool
}.

(** [BrokerConfig.Validate] *)
Definition Validate (b : BrokerConfig) : error :=
  if Enable b && Nat.eqb (length (Addrs b)) 0 && Z.ltb 0 (Type_ b) then
    Some (InvalidConfigurationParameterError
            "Addrs" "Invalid number of addresses")
  else None.

End brokerconfig.

(** ** Package messaging: the broker selector *)

Module messaging.

(** The go-micro brokers and their options, by the constructor calls that
    build them.  [Registry] stands for the registry handed to the
    selector. *)
Inductive BrokerOption (Registry : Type) : Type :=
| OptAddrs (addrs : list string)
| OptRegistry (r : Registry)
| OptWithoutExchange.

Arguments OptAddrs {Registry} addrs.
Arguments OptRegistry {Registry} r.
Arguments OptWithoutExchange {Registry}.

Inductive Broker (Registry : Type) : Type :=
| MemoryBroker (bo : list (BrokerOption Registry))
| RabbitMQBroker (bo : list (BrokerOption Registry))
| NATSBroker (bo : list (BrokerOption Registry)).

Arguments MemoryBroker {Registry} bo.
Arguments RabbitMQBroker {Registry} bo.
Arguments NATSBroker {Registry} bo.

Inductive SubscribeOption : Type :=
| SubDisableAutoAck
| SubAckOnSuccess
| SubDurableQueue
| SubRequeueOnError.

(** [broker.SubscribeOptions]: the zero value of the struct, or what
    [broker.NewSubscribeOptions] builds from a list of options. *)
Inductive SubscribeOptions : Type :=
| ZeroSubscribeOptions
| NewSubscribeOptions (opts : list SubscribeOption).

Record BrokerWithOptions (Registry : Type) : Type := mkBrokerWithOptions {
  Broker_ : Broker Registry;
  SubOptions : SubscribeOptions
}.

Arguments mkBrokerWithOptions {Registry} Broker_ SubOptions.
Arguments Broker_ {Registry} b.
Arguments SubOptions {Registry} b.

(** [opts = append(opts, o)] under a flag. *)
Definition append_if (flag : bool) (o : SubscribeOption)
    (opts : list SubscribeOption) : list SubscribeOption :=
  if flag then (opts ++ [o])%list else opts.

(** [NewBroker] *)
Definition NewBroker {Registry : Type} (registry : Registry)
    (config : brokerconfig.BrokerConfig) : BrokerWithOptions Registry :=
  let bo := [OptAddrs (brokerconfig.Addrs config); OptRegistry registry] in
  if negb (brokerconfig.Enable config) then
    mkBrokerWithOptions (MemoryBroker bo) ZeroSubscribeOptions
  else if Z.eqb (brokerconfig.Type_ config) 1 then
    let bo1 := (bo ++ [OptWithoutExchange])%list in
    let opts := [] in
    let opts := append_if (brokerconfig.DisableAutoAck config)
                  SubDisableAutoAck opts in
    let opts := append_if (brokerconfig.AckOnSuccess config)
                  SubAckOnSuccess opts in
    let opts := append_if (brokerconfig.Durable config)
                  SubDurableQueue opts in
    let opts := append_if (brokerconfig.RequeueOnError config)
                  SubRequeueOnError opts in
    mkBrokerWithOptions (RabbitMQBroker bo1) (NewSubscribeOptions opts)
  else if Z.eqb (brokerconfig.Type_ config) 2 then
    mkBrokerWithOptions (NATSBroker bo) ZeroSubscribeOptions
  else
    mkBrokerWithOptions (MemoryBroker bo) ZeroSubscribeOptions.

(** Whether the broker talks to a remote service. *)
Definition is_remote {Registry : Type} (b : Broker Registry) : bool :=
  match b with
  | MemoryBroker _ => false
  | RabbitMQBroker _ | NATSBroker _ => true
  end.

Definition broker_options {Registry : Type} (b : Broker Registry)
  : list (BrokerOption Registry) :=
  match b with
  | MemoryBroker bo | RabbitMQBroker bo | NATSBroker bo => bo
  end.

End messaging.

(** ** Package functional: the pipe *)

Module functional.

Section Pipe.
(** [T] is the type parameter of the pipe, [S] whatever the handler
    functions close over and may change. *)
Context {T S : Type}.

(** [action[T]]: a Go function from [T] to [(T, error)], with its effect
    on the captured state. *)
Definition action : Type := T -> S -> T * option Err * S.

Record Pipe : Type := mkPipe { chain : list action }.

Definition NewPipe : Pipe := mkPipe [].

(** [Next] appends to the chain of the receiver and returns the
    receiver. *)
Definition Next (p : Pipe) (f : action) : Pipe :=
  mkPipe (chain p ++ [f])%list.

(** The loop of [Do], entered with the current [res] and [err]. *)
Fixpoint Do_loop (fns : list action) (res : T) (err : option Err) (s : S)
  : T * option Err * S :=
  match fns with
  | [] => (res, err, s)
  | fn :: rest =>
      match fn res s with
      | (res1, Some e, s1) => (res1, Some e, s1)
      | (res1, None, s1) => Do_loop rest res1 None s1
      end
  end.

(** [Do]: [zero] is the zero value of [T] that [var res T] declares. *)
Definition Do (zero : T) (p : Pipe) (s : S) : T * option Err * S :=
  Do_loop (chain p) zero None s.

End Pipe.

Arguments action : clear implicits.
Arguments Pipe : clear implicits.

End functional.

(** ** Package crypto *)

(** In this package a Go string and a [[]byte] are both a list of bytes,
    so that the conversions between the two are the identity. *)
Module crypto.

Definition bytes : Type := list Byte.byte.

(** The errors of the package: its own [_ErrInvalidNonceSize], and the
    errors of the standard library. *)
Inductive CryptoErr : Type :=
| ErrInvalidNonceSize
| LibraryError (code : Z).

(** [validKey := make([]byte, 32); copy(validKey, key)]: the first 32
    bytes of the key, padded with zero bytes. *)
Definition validKey (key : bytes) : bytes :=
  (firstn 32 key ++ repeat Byte.x00 (32 - length key))%list.

Section Aes.
(** The standard library's AES, GCM, random reader and base64 codec. *)
Variables Block GCM : Type.
Variable NewCipher : bytes -> CryptoErr + Block.
Variable NewGCM : Block -> CryptoErr + GCM.
Variable NonceSize : GCM -> nat.
(** [Seal g nonce plaintext] is what [gcm.Seal] appends to its first
    argument; [Open g nonce ciphertext] is [gcm.Open]. *)
Variable Seal : GCM -> bytes -> bytes -> bytes.
Variable Open : GCM -> bytes -> bytes -> CryptoErr + bytes.
(** [io.ReadFull(rand.Reader, buf)] for a buffer of the given length. *)
Variable ReadFull : nat -> CryptoErr + bytes.
Variable EncodeToString : bytes -> bytes.
Variable DecodeString : bytes -> CryptoErr + bytes.

(** [aesEncryptor.Encrypt] *)
Definition Encrypt (text key : bytes) : bytes * option CryptoErr :=
  match NewCipher (validKey key) with
  | inl err => ([], Some err)
  | inr c =>
      match NewGCM c with
      | inl err => ([], Some err)
      | inr gcm =>
          match ReadFull (NonceSize gcm) with
          | inl err => ([], Some err)
          | inr nonce =>
              let result := (nonce ++ Seal gcm nonce text)%list in
              (EncodeToString result, None)
          end
      end
  end.

(** [aesEncryptor.Decrypt]: the error of [gcm.Open] is dropped, and on
    that error the plaintext is the nil slice. *)
Definition Decrypt (text key : bytes) : bytes * option CryptoErr :=
  match NewCipher (validKey key) with
  | inl err => ([], Some err)
  | inr c =>
      match NewGCM c with
      | inl err => ([], Some err)
      | inr gcm =>
          match DecodeString text with
          | inl err => ([], Some err)
          | inr buf =>
              let nonceSize := NonceSize gcm in
              if Nat.ltb (length buf) nonceSize then
                ([], Some ErrInvalidNonceSize)
              else
                let nonce := firstn nonceSize buf in
                let ciphertext := skipn nonceSize buf in
                match Open gcm nonce ciphertext with
                | inl _ => ([], None)
                | inr plaintext => (plaintext, None)
                end
          end
      end
  end.

End Aes.

(** [hex.EncodeToString]: two lower-case digits per byte, high nibble
    first. *)
Definition hextable : bytes :=
  [Byte.x30; Byte.x31; Byte.x32; Byte.x33; Byte.x34; Byte.x35; Byte.x36;
   Byte.x37; Byte.x38; Byte.x39; Byte.x61; Byte.x62; Byte.x63; Byte.x64;
   Byte.x65; Byte.x66].

Definition hexDigit (n : N) : Byte.byte :=
  nth (N.to_nat n) hextable Byte.x30.

Definition hexEncodeByte (b : Byte.byte) : bytes :=
  [hexDigit (N.shiftr (Byte.to_N b) 4); hexDigit (N.land (Byte.to_N b) 15)].

Definition hexEncodeToString (src : bytes) : bytes :=
  flat_map hexEncodeByte src.

Definition is_lower_hex (b : Byte.byte) : bool :=
  let n := Byte.to_N b in
  ((N.leb 48 n && N.leb n 57) || (N.leb 97 n && N.leb n 102))%bool.

(** [md5Hasher.Hash], over the standard library's [md5.Sum]. *)
Definition Hash (md5Sum : bytes -> bytes) (text : bytes) : bytes :=
  hexEncodeToString (md5Sum text).

(** [strings.ReplaceAll(s, "+", "")]: every plus sign is removed. *)
Definition removePlus (s : bytes) : bytes :=
  List.filter (fun b => negb (N.eqb (Byte.to_N b) 43)) s.

(** [url.QueryEscape]: letters, digits and [-_.~] stay, a space becomes a
    plus sign, any other byte becomes a percent sign and two upper-case
    hexadecimal digits. *)
Definition upperhex : bytes :=
  [Byte.x30; Byte.x31; Byte.x32; Byte.x33; Byte.x34; Byte.x35; Byte.x36;
   Byte.x37; Byte.x38; Byte.x39; Byte.x41; Byte.x42; Byte.x43; Byte.x44;
   Byte.x45; Byte.x46].

Definition unreserved (b : Byte.byte) : bool :=
  let n := Byte.to_N b in
  ((N.leb 97 n && N.leb n 122) || (N.leb 65 n && N.leb n 90)
   || (N.leb 48 n && N.leb n 57)
   || N.eqb n 45 || N.eqb n 95 || N.eqb n 46 || N.eqb n 126)%bool.

Definition escapeByte (b : Byte.byte) : bytes :=
  if unreserved b then [b]
  else if N.eqb (Byte.to_N b) 32 then [Byte.x2b]
  else [Byte.x25;
        nth (N.to_nat (N.shiftr (Byte.to_N b) 4)) upperhex Byte.x30;
        nth (N.to_nat (N.land (Byte.to_N b) 15)) upperhex Byte.x30].

Definition QueryEscape (s : bytes) : bytes := flat_map escapeByte s.

Section State.
(** [rand.Read] on a buffer of the given length, HMAC-SHA256 (the error is
    that of [h.Write]) and the base64 encoder. *)
Variable randRead : nat -> CryptoErr + bytes.
Variable hmacSHA256 : bytes -> bytes -> CryptoErr + bytes.
Variable EncodeToString : bytes -> bytes.

(** [randomHex] *)
Definition randomHex (n : nat) : bytes * option CryptoErr :=
  match randRead n with
  | inl err => ([], Some err)
  | inr bs => (hexEncodeToString bs, None)
  end.

(** [hmacBase64]: the secret is the key. *)
Definition hmacBase64 (message secret : bytes) : bytes * option CryptoErr :=
  match hmacSHA256 secret message with
  | inl err => ([], Some err)
  | inr sum => (EncodeToString sum, None)
  end.

(** [stateGenerator.GenerateState] *)
Definition GenerateState (secret : bytes) : bytes * option CryptoErr :=
  match randomHex 64 with
  | (_, Some err) => ([], Some err)
  | (ts, None) =>
      match hmacBase64 ts secret with
      | (_, Some err) => ([], Some err)
      | (hmac, None) =>
          (QueryEscape (removePlus (hmac ++ [Byte.x2e] ++ ts)%list), None)
      end
  end.

End State.

End crypto.

(** ** A small stand-in for the cryptographic library *)

(** Functions simple enough to compute with, in the place of AES-GCM, the
    random reader, base64, MD5 and HMAC: the "cipher" appends the first
    key byte as a tag and checks it on opening. *)
Module cryptostub.

Definition NewCipher (k : crypto.bytes) : crypto.CryptoErr + crypto.bytes :=
  if Nat.eqb (length k) 32 then inr k else inl (crypto.LibraryError 1).

Definition NewGCM (b : crypto.bytes) : crypto.CryptoErr + crypto.bytes :=
  inr b.

Definition NonceSize (g : crypto.bytes) : nat := 12%nat.

Definition Seal (g nonce plaintext : crypto.bytes) : crypto.bytes :=
  (plaintext ++ [hd Byte.x00 g])%list.

Definition Open (g nonce ciphertext : crypto.bytes)
  : crypto.CryptoErr + crypto.bytes :=
  match rev ciphertext with
  | t :: r =>
      if Byte.eqb t (hd Byte.x00 g) then inr (rev r)
      else inl (crypto.LibraryError 2)
  | [] => inl (crypto.LibraryError 2)
  end.

Definition ReadFull (n : nat) : crypto.CryptoErr + crypto.bytes :=
  inr (repeat Byte.x2a n).

Definition EncodeToString (b : crypto.bytes) : crypto.bytes := b.

Definition DecodeString (s : crypto.bytes)
  : crypto.CryptoErr + crypto.bytes := inr s.

Definition md5Sum (text : crypto.bytes) : crypto.bytes :=
  repeat Byte.x00 16.

Definition hmacSHA256 (key message : crypto.bytes)
  : crypto.CryptoErr + crypto.bytes :=
  inr (firstn 32 (key ++ message ++ repeat Byte.x00 32))%list.

End cryptostub.

(* ===================================================================== *)
(** * Part II: theorems                                                   *)
(* ===================================================================== *)

(** ** White space and [TrimSpace] *)

Section TrimSpaceFacts.
Import gostrings.

Example TrimSpace_inner_space_kept :
  TrimSpace "  mongodb://h:27017 " = "mongodb://h:27017"
  /\ TrimSpace "a b" = "a b".
Proof. split; vm_compute; reflexivity. Qed.

Example TrimSpace_unicode_space :
  TrimSpace (of_codes [194; 160; 97; 226; 128; 137; 10]%N) = "a".
Proof. vm_compute. reflexivity. Qed.

Lemma space2_not_ascii a b : space2 a b = true -> asciiSpace a = false.
Proof.
  unfold space2, asciiSpace. intros H.
  apply andb_prop in H as [Ha _]. apply N.eqb_eq in Ha. subst a.
  reflexivity.
Qed.

Lemma space3_lead a b c :
  space3 a b c = true -> a = 225%N \/ a = 226%N \/ a = 227%N.
Proof.
  unfold space3. intros H.
  repeat (apply orb_prop in H as [H | H]);
    repeat (apply andb_prop in H as [H ?]);
    apply N.eqb_eq in H; subst a; auto.
Qed.

Lemma space3_not_ascii a b c : space3 a b c = true -> asciiSpace a = false.
Proof.
  intros H. destruct (space3_lead _ _ _ H) as [-> | [-> | ->]]; reflexivity.
Qed.

Lemma space3_not_space2 a b c : space3 a b c = true -> space2 a b = false.
Proof.
  intros H. destruct (space3_lead _ _ _ H) as [-> | [-> | ->]]; reflexivity.
Qed.

(** One white-space rune at the front is dropped. *)
Lemma trimLeft_rune r s :
  spaceRune r = true -> trimLeft (r ++ s) = trimLeft s.
Proof.
  destruct r as [| a [| b [| c [| d r]]]]; simpl; try discriminate.
  - intros ->. reflexivity.
  - intros H. rewrite (space2_not_ascii _ _ H), H. reflexivity.
  - intros H.
    rewrite (space3_not_ascii _ _ _ H), (space3_not_space2 _ _ _ H), H.
    reflexivity.
Qed.

Lemma trimLeft_whitespace s : WhitespaceOnly s -> trimLeft s = [].
Proof.
  induction 1 as [| r s Hr _ IH]; [reflexivity |].
  rewrite trimLeft_rune by exact Hr. exact IH.
Qed.

(** A string of white space trims to the empty string. *)
Lemma TrimSpace_whitespace s :
  WhitespaceOnly (codes s) -> TrimSpace s = "".
Proof.
  intros H. unfold TrimSpace. rewrite (trimLeft_whitespace _ H).
  reflexivity.
Qed.

Lemma WhitespaceOnly_app s1 s2 :
  WhitespaceOnly s1 -> WhitespaceOnly s2 -> WhitespaceOnly (s1 ++ s2).
Proof.
  induction 1 as [| r s Hr _ IH]; intros H2; [exact H2 |].
  rewrite <- app_assoc. apply ws_rune; [exact Hr | apply IH, H2].
Qed.

Lemma WhitespaceOnly_snoc s r :
  WhitespaceOnly s -> spaceRune r = true -> WhitespaceOnly (s ++ r).
Proof.
  intros Hs Hr. apply WhitespaceOnly_app; [exact Hs |].
  rewrite <- (app_nil_r r). apply ws_rune; [exact Hr | apply ws_nil].
Qed.

(** What [trimRev] consumes entirely was white space. *)
Lemma trimRev_nil_whitespace (n : nat) :
  forall r, (length r <= n)%nat -> trimRev r = [] -> WhitespaceOnly (rev r).
Proof.
  induction n as [| n IH]; intros r Hlen Hr.
  - destruct r; [apply ws_nil | simpl in Hlen; lia].
  - destruct r as [| a t1]; [apply ws_nil |].
    simpl in Hlen, Hr.
    destruct (asciiSpace a) eqn:Ha.
    { simpl. apply WhitespaceOnly_snoc; [apply IH; [lia | exact Hr] |].
      exact Ha. }
    destruct t1 as [| b t2]; [discriminate |].
    simpl in Hlen.
    destruct (space2 b a) eqn:Hb.
    { simpl. rewrite <- app_assoc.
      apply WhitespaceOnly_snoc; [apply IH; [lia | exact Hr] |].
      exact Hb. }
    destruct t2 as [| c t3]; [discriminate |].
    simpl in Hlen.
    destruct (space3 c b a) eqn:Hc; [| discriminate].
    simpl. rewrite <- !app_assoc.
    apply WhitespaceOnly_snoc; [apply IH; [lia | exact Hr] |].
    exact Hc.
Qed.

(** [trimLeft] leaves nothing it would drop again. *)
Lemma trimLeft_idempotent (n : nat) :
  forall s, (length s <= n)%nat -> trimLeft (trimLeft s) = trimLeft s.
Proof.
  induction n as [| n IH]; intros s Hlen.
  - destruct s; [reflexivity | simpl in Hlen; lia].
  - destruct s as [| a t1]; [reflexivity |].
    simpl in Hlen. cbn [trimLeft].
    destruct (asciiSpace a) eqn:Ha; [apply IH; lia |].
    destruct t1 as [| b t2].
    { cbn [trimLeft]. rewrite Ha. reflexivity. }
    simpl in Hlen.
    destruct (space2 a b) eqn:Hb; [apply IH; lia |].
    destruct t2 as [| c t3].
    { cbn [trimLeft]. rewrite Ha, Hb. reflexivity. }
    simpl in Hlen.
    destruct (space3 a b c) eqn:Hc; [apply IH; lia |].
    cbn [trimLeft]. rewrite Ha, Hb, Hc. reflexivity.
Qed.

Lemma of_codes_nil l : of_codes l = "" -> l = [].
Proof. destruct l; [reflexivity | discriminate]. Qed.

(** [TrimSpace] returns the empty string exactly on white space. *)
Lemma TrimSpace_empty_iff s :
  TrimSpace s = "" <-> WhitespaceOnly (codes s).
Proof.
  split; [| apply TrimSpace_whitespace].
  unfold TrimSpace, trimRight. intros H. apply of_codes_nil in H.
  assert (Hr : trimRev (rev (trimLeft (codes s))) = []).
  { destruct (trimRev (rev (trimLeft (codes s)))) as [| x l] eqn:E;
      [reflexivity |].
    apply (f_equal (@length N)) in H. rewrite length_rev in H.
    discriminate H. }
  apply (trimRev_nil_whitespace _ _ (le_n _)) in Hr.
  rewrite rev_involutive in Hr.
  apply trimLeft_whitespace in Hr.
  rewrite (trimLeft_idempotent _ _ (le_n _)) in Hr.
  assert (Hall : forall n t, (length t <= n)%nat -> trimLeft t = [] ->
                             WhitespaceOnly t).
  { clear. induction n as [| n IH]; intros t Hlen Ht.
    - destruct t; [apply ws_nil | simpl in Hlen; lia].
    - destruct t as [| a t1]; [apply ws_nil |].
      simpl in Hlen. cbn [trimLeft] in Ht.
      destruct (asciiSpace a) eqn:Ha.
      { apply (ws_rune [a]); [exact Ha | apply IH; [lia | exact Ht]]. }
      destruct t1 as [| b t2]; [discriminate |].
      simpl in Hlen.
      destruct (space2 a b) eqn:Hb.
      { apply (ws_rune [a; b]); [exact Hb | apply IH; [lia | exact Ht]]. }
      destruct t2 as [| c t3]; [discriminate |].
      simpl in Hlen.
      destruct (space3 a b c) eqn:Hc; [| discriminate].
      apply (ws_rune [a; b; c]); [exact Hc | apply IH; [lia | exact Ht]]. }
  apply (Hall _ _ (le_n _) Hr).
Qed.

End TrimSpaceFacts.

(** ** Validation of the configuration *)

(** [StorageConfig.Validate] decides on the trimmed URL alone. *)
Lemma StorageConfig_Validate_spec (p : config.StorageConfig) :
  snd (config.StorageConfig_Validate p) =
    if String.eqb (gostrings.TrimSpace (config.Storage_URL p)) "" then
      Some (InvalidConfigurationParameterError
              "URL" "MongoDB driver expects a valid url")
    else None.
Proof.
  unfold config.StorageConfig_Validate. simpl.
  destruct (Z.eqb (config.Storage_Type p) 1);
    destruct (String.eqb (gostrings.TrimSpace (config.Storage_URL p)) "");
    reflexivity.
Qed.

(** The URL passes exactly when something other than white space is left
    of it. *)
Lemma StorageConfig_Validate_accepts (p : config.StorageConfig) :
  snd (config.StorageConfig_Validate p) = None
  <-> ~ gostrings.WhitespaceOnly (gostrings.codes (config.Storage_URL p)).
Proof.
  rewrite StorageConfig_Validate_spec, <- TrimSpace_empty_iff.
  destruct (String.eqb_spec (gostrings.TrimSpace (config.Storage_URL p)) "")
    as [Heq | Hne];
    split; intros H; try discriminate; try reflexivity; try contradiction.
  exact Hne.
Qed.

Lemma two_blanks_whitespace :
  gostrings.WhitespaceOnly (gostrings.codes "  ").
Proof.
  change (gostrings.codes "  ") with (([32%N] ++ [32%N] ++ [])%list).
  repeat (apply gostrings.ws_rune; [reflexivity |]).
  apply gostrings.ws_nil.
Qed.

(** C9. Whatever the storage type, a URL that is empty or made of white
    space only is rejected with the configuration error whose parameter is
    "URL": the default branch of the switch repeats the check of the
    document-oriented branch. *)
Theorem validate_rejects_blank_url_for_every_type :
  forall p : config.StorageConfig,
    gostrings.WhitespaceOnly (gostrings.codes (config.Storage_URL p)) ->
    snd (config.StorageConfig_Validate p)
    = Some (InvalidConfigurationParameterError
              "URL" "MongoDB driver expects a valid url").
Proof.
  intros p Hws.
  rewrite StorageConfig_Validate_spec, (TrimSpace_whitespace _ Hws).
  reflexivity.
Qed.

Lemma validate_rejects_blank_url_for_every_type_witness :
  snd (config.StorageConfig_Validate (config.mkStorageConfig 0 "" ""))
  = Some (InvalidConfigurationParameterError
            "URL" "MongoDB driver expects a valid url").
Proof.
  apply (validate_rejects_blank_url_for_every_type
           (config.mkStorageConfig 0 "" "")).
  apply gostrings.ws_nil.
Defined.

(** ** The option model *)

Section OptionModel.
Import steps.

Ltac same_field H :=
  exfalso; unfold distinct in H; simpl in H;
  eapply H; left; reflexivity.

Ltac pick_assignment H :=
  simpl in H;
  repeat match type of H with
         | _ \/ _ => destruct H as [H | H]
         | False => destruct H
         | (_, _) = (_, _) => inversion H; subst; clear H
         end.

(** A setter changes the fields it assigns and no other. *)
Lemma readOption_frame s o f :
  ~ In f (fields (readSets s)) -> readGet f (readOption s o) = readGet f o.
Proof.
  intros H. destruct s, f; simpl in *; try reflexivity;
    exfalso; apply H; auto.
Qed.

Lemma writeOption_frame s o f :
  ~ In f (fields (writeSets s)) -> writeGet f (writeOption s o) = writeGet f o.
Proof.
  intros H. destruct s, f; simpl in *; try reflexivity;
    exfalso; apply H; auto.
Qed.

Lemma deleteOption_frame s o f :
  ~ In f (fields (deleteSets s)) ->
  deleteGet f (deleteOption s o) = deleteGet f o.
Proof.
  intros H. destruct s, f; simpl in *; try reflexivity;
    exfalso; apply H; auto.
Qed.

Lemma readOption_commute a b o :
  distinct (readSets a) (readSets b) ->
  readOption b (readOption a o) = readOption a (readOption b o).
Proof. intros H. destruct a, b; try reflexivity; same_field H. Qed.

Lemma writeOption_commute a b o :
  distinct (writeSets a) (writeSets b) ->
  writeOption b (writeOption a o) = writeOption a (writeOption b o).
Proof. intros H. destruct a, b; try reflexivity; same_field H. Qed.

Lemma deleteOption_commute a b o :
  distinct (deleteSets a) (deleteSets b) ->
  deleteOption b (deleteOption a o) = deleteOption a (deleteOption b o).
Proof. intros H. destruct a, b; try reflexivity; same_field H. Qed.

Lemma readOption_last a b o f v :
  In (f, v) (readSets b) ->
  readGet f (readOption b (readOption a o)) = Some v.
Proof. intros H. destruct b; pick_assignment H; reflexivity. Qed.

Lemma writeOption_last a b o f v :
  In (f, v) (writeSets b) ->
  writeGet f (writeOption b (writeOption a o)) = Some v.
Proof. intros H. destruct b; pick_assignment H; reflexivity. Qed.

Lemma deleteOption_last a b o f v :
  In (f, v) (deleteSets b) ->
  deleteGet f (deleteOption b (deleteOption a o)) = Some v.
Proof. intros H. destruct b; pick_assignment H; reflexivity. Qed.

(** C8. In each of the three families of setters, two steps that assign
    distinct fields give the same options value in either order, and
    whatever step came before, every field assigned by the step applied
    last holds the value of that last step. *)
Theorem builder_steps_commute_and_last_wins :
  (forall a b o,
      distinct (readSets a) (readSets b) ->
      readOption b (readOption a o) = readOption a (readOption b o))
  /\ (forall a b o,
         distinct (writeSets a) (writeSets b) ->
         writeOption b (writeOption a o) = writeOption a (writeOption b o))
  /\ (forall a b o,
         distinct (deleteSets a) (deleteSets b) ->
         deleteOption b (deleteOption a o) = deleteOption a (deleteOption b o))
  /\ (forall a b o f v,
         In (f, v) (readSets b) ->
         readGet f (readOption b (readOption a o)) = Some v)
  /\ (forall a b o f v,
         In (f, v) (writeSets b) ->
         writeGet f (writeOption b (writeOption a o)) = Some v)
  /\ (forall a b o f v,
         In (f, v) (deleteSets b) ->
         deleteGet f (deleteOption b (deleteOption a o)) = Some v).
Proof.
  repeat split.
  - apply readOption_commute.
  - apply writeOption_commute.
  - apply deleteOption_commute.
  - apply readOption_last.
  - apply writeOption_last.
  - apply deleteOption_last.
Qed.

Lemma builder_steps_commute_and_last_wins_witness :
  storage.ReadLimit 5 (storage.ReadFrom "db" "files" ReadOptions.zero)
  = storage.ReadFrom "db" "files" (storage.ReadLimit 5 ReadOptions.zero)
  /\ WriteOptions.TTL
       (storage.WriteTTL 7 (storage.WriteTTL 3 WriteOptions.zero)) = 7.
Proof.
  destruct builder_steps_commute_and_last_wins
    as (Hr & _ & _ & _ & Hw & _).
  split.
  - apply (Hr (SReadFrom "db" "files") (SReadLimit 5) ReadOptions.zero).
    intros f Ha Hb. simpl in Ha, Hb.
    destruct Hb as [<- | []]. destruct Ha as [Ha | [Ha | []]]; discriminate.
  - assert (H : writeGet FTTL
                  (writeOption (SWriteTTL 7)
                     (writeOption (SWriteTTL 3) WriteOptions.zero))
                = Some (VInt 7)).
    { apply Hw. simpl. left. reflexivity. }
    simpl in H. inversion H. reflexivity.
Defined.

End OptionModel.

(** ** Running command trees *)

Lemma run_Do {A W X : Type} (h : handler W) (c : Call X) (k : X -> prog A)
    (w : W) :
  run h (Do c k) w =
    mkRun (outcome (run h (k (fst (h _ c w))) (snd (h _ c w))))
          (final (run h (k (fst (h _ c w))) (snd (h _ c w))))
          (Ev c (fst (h _ c w))
             :: trace (run h (k (fst (h _ c w))) (snd (h _ c w)))).
Proof. simpl. destruct (h X c w) as [x w1]. reflexivity. Qed.

(** What holds of every request of a tree holds of every request of each
    of its traces. *)
Lemma AllCalls_trace {A W : Type} (P : forall X, Call X -> Prop)
    (h : handler W) (m : prog A) :
  AllCalls P m ->
  forall w, Forall (fun e => P _ (ev_call e)) (trace (run h m w)).
Proof.
  induction m as [a | ab | X c k IH]; intros Hm w.
  - constructor.
  - constructor.
  - destruct Hm as [Hc Hk]. rewrite run_Do. simpl.
    constructor; [exact Hc | apply IH, Hk].
Qed.

Lemma AllCalls_bind {A B : Type} (P : forall X, Call X -> Prop)
    (m : prog A) (f : A -> prog B) :
  AllCalls P m -> (forall a, AllCalls P (f a)) -> AllCalls P (bind m f).
Proof.
  induction m as [a | ab | X c k IH]; simpl; intros Hm Hf.
  - apply Hf.
  - exact I.
  - destruct Hm as [Hc Hk]. split; [exact Hc |].
    intros x. apply IH; [apply Hk | exact Hf].
Qed.

(** ** Reads without a result target *)

Section ReadWithoutResult.
Context {W : Type} (h : handler W).

Lemma mongo_Read_nil_result s ctx opts w :
  ReadOptions.Result (applyOpts opts ReadOptions.zero) = Nil ->
  let ops := applyOpts opts ReadOptions.zero in
  let q := FindOne ctx (ReadOptions.Table ops)
             [(ReadOptions.Key ops, ReadOptions.Value ops)] in
  run h (mongo.Read s ctx opts) w
  = mkRun (Returned (Some errInvalidResultOption)) (snd (h _ q w))
          [Ev q (fst (h _ q w))].
Proof.
  intros Hnil ops q. unfold mongo.Read. rewrite run_Do, Hnil.
  reflexivity.
Qed.

Lemma mongo_List_nil_result s ctx opts w :
  ReadOptions.Result (applyOpts opts ReadOptions.zero) = Nil ->
  let ops := applyOpts opts ReadOptions.zero in
  let q := Find ctx (ReadOptions.Table ops) []
             (int64 (ReadOptions.Offset ops))
             (int64 (ReadOptions.Limit ops)) in
  run h (mongo.List s ctx opts) w
  = mkRun (Returned (Some match fst (h _ q w) with
                          | inl err => err
                          | inr _ => errInvalidResultOption
                          end))
          (snd (h _ q w)) [Ev q (fst (h _ q w))].
Proof.
  intros Hnil ops q. unfold mongo.List. rewrite run_Do, Hnil.
  fold ops. fold q. destruct (fst (h _ q w)); reflexivity.
Qed.

Lemma memory_Read_nil_result s ctx opts w :
  ReadOptions.Result (applyOpts opts ReadOptions.zero) = Nil ->
  let ops := applyOpts opts ReadOptions.zero in
  let q := StoreRead (memory.store_ s) (ReadOptions.Key ops)
             (ReadOptions.Database ops) (ReadOptions.Table ops)
             (ReadOptions.Limit ops) (ReadOptions.Offset ops) in
  let w1 := snd (h _ q w) in
  run h (memory.Read s ctx opts) w
  = match fst (h _ q w) with
    | inl err => mkRun (Returned (Some err)) w1 [Ev q (inl err)]
    | inr res =>
        let d := MapstructureDecode res Nil in
        mkRun (Returned (fst (h _ d w1))) (snd (h _ d w1))
          [Ev q (inr res); Ev d (fst (h _ d w1))]
    end.
Proof.
  intros Hnil ops q w1. unfold memory.Read. rewrite run_Do, Hnil.
  fold ops. fold q. fold w1.
  destruct (fst (h _ q w)) as [err | res]; [reflexivity |].
  rewrite run_Do. reflexivity.
Qed.

Lemma memory_List_nil_result s ctx opts w :
  ReadOptions.Result (applyOpts opts ReadOptions.zero) = Nil ->
  let ops := applyOpts opts ReadOptions.zero in
  let q := StoreList (memory.store_ s) (ReadOptions.Database ops)
             (ReadOptions.Table ops) (ReadOptions.Limit ops)
             (ReadOptions.Offset ops) (ReadOptions.Prefix ops)
             (ReadOptions.Suffix ops) in
  let w1 := snd (h _ q w) in
  run h (memory.List s ctx opts) w
  = match fst (h _ q w) with
    | inl err => mkRun (Returned (Some err)) w1 [Ev q (inl err)]
    | inr res =>
        let d := MapstructureDecode res Nil in
        mkRun (Returned (fst (h _ d w1))) (snd (h _ d w1))
          [Ev q (inr res); Ev d (fst (h _ d w1))]
    end.
Proof.
  intros Hnil ops q w1. unfold memory.List. rewrite run_Do, Hnil.
  fold ops. fold q. fold w1.
  destruct (fst (h _ q w)) as [err | res]; [reflexivity |].
  rewrite run_Do. reflexivity.
Qed.

(** C1 (amended). The no-op variant returns nil from [Read] and from
    [List] whatever the options, without any request.  With no result
    target among the options: the document-oriented [Read] issues its
    query and returns [errInvalidResultOption] without asking for a
    decode; the document-oriented [List] issues its query and returns
    [errInvalidResultOption] when the query succeeded and the error of the
    query otherwise, again without a decode; the in-memory [Read] and
    [List] each ask their store and return its error or else hand the nil
    target to the decoder and return whatever the decoder answers. *)
Theorem read_without_result_target :
  forall (ctx : Context) (w : W),
    (forall opts : list storage.ReadOption,
        run h (RefinedStore_Read EmptyStore ctx opts) w
        = mkRun (Returned None) w []
        /\ run h (RefinedStore_List EmptyStore ctx opts) w
           = mkRun (Returned None) w [])
    /\ forall opts : list storage.ReadOption,
        ReadOptions.Result (applyOpts opts ReadOptions.zero) = Nil ->
        let ops := applyOpts opts ReadOptions.zero in
        (forall s,
            let q := FindOne ctx (ReadOptions.Table ops)
                       [(ReadOptions.Key ops, ReadOptions.Value ops)] in
            run h (RefinedStore_Read (MongoStore s) ctx opts) w
            = mkRun (Returned (Some errInvalidResultOption))
                (snd (h _ q w)) [Ev q (fst (h _ q w))])
        /\ (forall s,
               let q := Find ctx (ReadOptions.Table ops) []
                          (int64 (ReadOptions.Offset ops))
                          (int64 (ReadOptions.Limit ops)) in
               run h (RefinedStore_List (MongoStore s) ctx opts) w
               = mkRun (Returned (Some match fst (h _ q w) with
                                       | inl err => err
                                       | inr _ => errInvalidResultOption
                                       end))
                   (snd (h _ q w)) [Ev q (fst (h _ q w))])
        /\ (forall s,
               let q := StoreRead (memory.store_ s) (ReadOptions.Key ops)
                          (ReadOptions.Database ops) (ReadOptions.Table ops)
                          (ReadOptions.Limit ops) (ReadOptions.Offset ops) in
               let w1 := snd (h _ q w) in
               run h (RefinedStore_Read (MemoryStore s) ctx opts) w
               = match fst (h _ q w) with
                 | inl err => mkRun (Returned (Some err)) w1 [Ev q (inl err)]
                 | inr res =>
                     let d := MapstructureDecode res Nil in
                     mkRun (Returned (fst (h _ d w1))) (snd (h _ d w1))
                       [Ev q (inr res); Ev d (fst (h _ d w1))]
                 end)
        /\ (forall s,
               let q := StoreList (memory.store_ s) (ReadOptions.Database ops)
                          (ReadOptions.Table ops) (ReadOptions.Limit ops)
                          (ReadOptions.Offset ops) (ReadOptions.Prefix ops)
                          (ReadOptions.Suffix ops) in
               let w1 := snd (h _ q w) in
               run h (RefinedStore_List (MemoryStore s) ctx opts) w
               = match fst (h _ q w) with
                 | inl err => mkRun (Returned (Some err)) w1 [Ev q (inl err)]
                 | inr res =>
                     let d := MapstructureDecode res Nil in
                     mkRun (Returned (fst (h _ d w1))) (snd (h _ d w1))
                       [Ev q (inr res); Ev d (fst (h _ d w1))]
                 end).
Proof.
  intros ctx w. split.
  - intros opts. split; reflexivity.
  - intros opts Hnil ops.
    split; [| split; [| split]]; intros s.
    + exact (mongo_Read_nil_result s ctx opts w Hnil).
    + exact (mongo_List_nil_result s ctx opts w Hnil).
    + exact (memory_Read_nil_result s ctx opts w Hnil).
    + exact (memory_List_nil_result s ctx opts w Hnil).
Qed.

End ReadWithoutResult.

(** The no-op variant answers a read that names no result target with nil:
    the call succeeds and is not refused with [errInvalidResultOption]. *)
Lemma noop_read_without_result_succeeds :
  ReadOptions.Result (applyOpts [] ReadOptions.zero) = Nil
  /\ outcome (run memdriver.handle
                (RefinedStore_Read EmptyStore Background []) memdriver.start)
     = Returned None
  /\ outcome (run memdriver.handle
                (RefinedStore_List EmptyStore Background []) memdriver.start)
     = Returned None
  /\ outcome (run memdriver.handle
                (RefinedStore_Read EmptyStore Background []) memdriver.start)
     <> Returned (Some errInvalidResultOption).
Proof. repeat split. discriminate. Qed.

Lemma read_without_result_target_witness :
  ReadOptions.Result
    (applyOpts [storage.ReadFrom "db" "files"; storage.ReadKey "id"]
       ReadOptions.zero) = Nil
  /\ outcome (run memdriver.handle
                (RefinedStore_Read (MongoStore mongo.NewMongoStore) Background
                   [storage.ReadFrom "db" "files"; storage.ReadKey "id"])
                memdriver.start)
     = Returned (Some errInvalidResultOption)
  /\ outcome (run memdriver.handle
                (RefinedStore_List (MemoryStore (memory.mkMemoryStore 0))
                   Background
                   [storage.ReadFrom "db" "files"; storage.ReadKey "id"])
                memdriver.start)
     = Returned (Some (DriverError 4)).
Proof.
  split; [reflexivity |].
  destruct (read_without_result_target memdriver.handle Background
              memdriver.start) as (_ & H).
  destruct (H [storage.ReadFrom "db" "files"; storage.ReadKey "id"] eq_refl)
    as (Hread & _ & _ & Hlist).
  split.
  - rewrite (Hread mongo.NewMongoStore). reflexivity.
  - rewrite (Hlist (memory.mkMemoryStore 0)). reflexivity.
Defined.

(** ** The document-oriented [List] *)

(** C7. The query of the document-oriented [List] is a [Find] on the
    table with the empty filter, skipping [Offset] and limited to [Limit];
    nothing but the cursor is used afterwards.  Two calls whose options
    agree on the table, the offset, the limit and the result target are the
    same command tree, so the key, value, prefix and suffix (and the
    database) cannot change what any driver returns. *)
Theorem mongo_List_ignores_filters :
  (forall s ctx opts,
      let ops := applyOpts opts ReadOptions.zero in
      exists k,
        mongo.List s ctx opts
        = Do (Find ctx (ReadOptions.Table ops) []
                (int64 (ReadOptions.Offset ops))
                (int64 (ReadOptions.Limit ops))) k
        /\ forall r,
             AllCalls (fun X c =>
                         match c with
                         | CursorAll _ _ _ | CursorClose _ _ => True
                         | _ => False
                         end) (k r))
  /\ (forall s ctx opts1 opts2,
         let o1 := applyOpts opts1 ReadOptions.zero in
         let o2 := applyOpts opts2 ReadOptions.zero in
         ReadOptions.Table o1 = ReadOptions.Table o2 ->
         ReadOptions.Offset o1 = ReadOptions.Offset o2 ->
         ReadOptions.Limit o1 = ReadOptions.Limit o2 ->
         ReadOptions.Result o1 = ReadOptions.Result o2 ->
         mongo.List s ctx opts1 = mongo.List s ctx opts2
         /\ forall (W : Type) (h : handler W) (w : W),
              run h (mongo.List s ctx opts1) w
              = run h (mongo.List s ctx opts2) w).
Proof.
  split.
  - intros s ctx opts ops. eexists. split; [reflexivity |].
    intros [err | cur]; simpl; [exact I |].
    destruct (is_nil _); simpl; [exact I |].
    split; [exact I |]. intros [err |]; simpl; auto.
  - intros s ctx opts1 opts2 o1 o2 Ht Ho Hl Hr.
    assert (E : mongo.List s ctx opts1 = mongo.List s ctx opts2).
    { unfold mongo.List. fold o1 o2. rewrite Ht, Ho, Hl, Hr. reflexivity. }
    split; [exact E |]. intros W h w. rewrite E. reflexivity.
Qed.

Lemma mongo_List_ignores_filters_witness :
  mongo.List mongo.NewMongoStore Background
    [storage.ReadFrom "db" "files"; storage.ReadLimit 10;
     storage.ReadPrefix "a"; storage.ReadKey "owner";
     storage.ReadValue "x"; storage.ReadSuffix "z"]
  = mongo.List mongo.NewMongoStore Background
      [storage.ReadFrom "other" "files"; storage.ReadLimit 10].
Proof.
  destruct mongo_List_ignores_filters as [_ H].
  apply (H mongo.NewMongoStore Background
           [storage.ReadFrom "db" "files"; storage.ReadLimit 10;
            storage.ReadPrefix "a"; storage.ReadKey "owner";
            storage.ReadValue "x"; storage.ReadSuffix "z"]
           [storage.ReadFrom "other" "files"; storage.ReadLimit 10]);
    reflexivity.
Defined.

(** ** The selector *)

Lemma NewStorage_mongo (cfg : config.StorageConfig) :
  config.Storage_Type cfg = 1 ->
  NewStorage cfg
  = (call e <- SetDefaultConfig (3 * Second) (config.Storage_DB cfg)
                 (config.Storage_URL cfg) ;;
     match e with
     | Some err => Abort (LogFatal err)
     | None =>
         Ret (MongoStore
                (mongo.mkMongoStore
                   (store.mkOptions [config.Storage_URL cfg]
                      (config.Storage_DB cfg) "")))
     end).
Proof. intros Ht. unfold NewStorage. rewrite Ht. reflexivity. Qed.

Lemma NewStorage_empty (cfg : config.StorageConfig) :
  config.Storage_Type cfg <> 1 -> NewStorage cfg = Ret EmptyStore.
Proof.
  intros Ht. unfold NewStorage.
  destruct (Z.eqb_spec (config.Storage_Type cfg) 1); [contradiction |].
  reflexivity.
Qed.

(** C4 (amended). The [Validate] methods issue no request and return the
    configuration error whose parameter is "URL" for storage type 1 with a
    URL that is empty or made of white space only, and the one whose
    parameter is "Address" for cache type 2 with an empty address.  The
    selectors do not validate: for storage type 1 the first thing
    [NewStorage] does is to ask the driver to connect to the URL of the
    configuration as it stands, blank or not, and for cache type 2
    [NewCache] builds the Redis cache on the address as it stands.  So a
    blank endpoint is refused before the backend is built only where the
    caller validates first and stops on the error. *)
Theorem validate_requires_endpoint :
  (forall p : config.StorageConfig,
      config.Storage_Type p = 1 ->
      gostrings.WhitespaceOnly (gostrings.codes (config.Storage_URL p)) ->
      exists reason,
        snd (config.StorageConfig_Validate p)
        = Some (InvalidConfigurationParameterError "URL" reason))
  /\ (forall b : config.CacheConfig,
         config.Cache_Type b = 2 ->
         config.Cache_Address b = "" ->
         exists reason,
           config.CacheConfig_Validate b
           = Some (InvalidConfigurationParameterError "Address" reason))
  /\ (forall p : config.StorageConfig,
         config.Storage_Type p = 1 ->
         NewStorage p
         = (call e <- SetDefaultConfig (3 * Second) (config.Storage_DB p)
                        (config.Storage_URL p) ;;
            match e with
            | Some err => Abort (LogFatal err)
            | None =>
                Ret (MongoStore
                       (mongo.mkMongoStore
                          (store.mkOptions [config.Storage_URL p]
                             (config.Storage_DB p) "")))
            end))
  /\ (forall b : config.CacheConfig,
         config.Cache_Type b = 2 ->
         cache.NewCache b
         = cache.mkCustomCache
             (RedisMarshaler (config.Cache_Address b)
                (config.Cache_Username b) (config.Cache_Password b)
                (config.Cache_Database b))
             "Redis").
Proof.
  split; [| split; [| split]].
  - intros p _ Hws. eexists.
    rewrite StorageConfig_Validate_spec, (TrimSpace_whitespace _ Hws).
    reflexivity.
  - intros b Ht Ha. eexists. unfold config.CacheConfig_Validate.
    rewrite Ht, Ha. reflexivity.
  - intros p Ht. apply NewStorage_mongo, Ht.
  - intros b Ht. unfold cache.NewCache. rewrite Ht. reflexivity.
Qed.

Lemma validate_requires_endpoint_witness :
  (exists reason,
      snd (config.StorageConfig_Validate (config.mkStorageConfig 1 "  " "db"))
      = Some (InvalidConfigurationParameterError "URL" reason))
  /\ (exists reason,
         config.CacheConfig_Validate
           (config.mkCacheConfig 2 10 "" "default" "" 0)
         = Some (InvalidConfigurationParameterError "Address" reason))
  /\ trace (run memdriver.handle
              (NewStorage (config.mkStorageConfig 1 "  " "db"))
              memdriver.start)
     = [Ev (SetDefaultConfig (3 * Second) "db" "  ") None]
  /\ cache.store_
       (cache.NewCache (config.mkCacheConfig 2 10 "" "default" "" 0))
     = RedisMarshaler "" "default" "" 0.
Proof.
  destruct validate_requires_endpoint as (Hs & Hc & Hn & Hr).
  split; [| split; [| split]].
  - apply (Hs (config.mkStorageConfig 1 "  " "db")).
    + reflexivity.
    + exact two_blanks_whitespace.
  - apply (Hc (config.mkCacheConfig 2 10 "" "default" "" 0)); reflexivity.
  - rewrite (Hn (config.mkStorageConfig 1 "  " "db") eq_refl). reflexivity.
  - rewrite (Hr (config.mkCacheConfig 2 10 "" "default" "" 0) eq_refl).
    reflexivity.
Defined.

(** A configuration of storage type 1 with the empty URL, which
    [StorageConfig.Validate] refuses, is taken by [NewStorage] as it is:
    the selector issues the connection request with the empty URL and no
    configuration error comes back from it; on a driver that refuses the
    empty URL the process ends in [log.Fatalln] with the driver's error.
    Likewise [NewCache] builds the Redis cache on the empty address that
    [CacheConfig.Validate] refuses. *)
Lemma selector_connects_without_validation :
  snd (config.StorageConfig_Validate (config.mkStorageConfig 1 "" "db"))
  = Some (InvalidConfigurationParameterError
            "URL" "MongoDB driver expects a valid url")
  /\ NewStorage (config.mkStorageConfig 1 "" "db")
     = (call e <- SetDefaultConfig (3 * Second) "db" "" ;;
        match e with
        | Some err => Abort (LogFatal err)
        | None =>
            Ret (MongoStore
                   (mongo.mkMongoStore (store.mkOptions [""] "db" "")))
        end)
  /\ run memdriver.handle (NewStorage (config.mkStorageConfig 1 "" "db"))
       memdriver.start
     = mkRun (Aborted (LogFatal (DriverError 1))) memdriver.start
         [Ev (SetDefaultConfig (3 * Second) "db" "") (Some (DriverError 1))]
  /\ config.CacheConfig_Validate (config.mkCacheConfig 2 10 "" "default" "" 0)
     = Some (InvalidConfigurationParameterError
               "Address" "Redis cache must have a valid address")
  /\ cache.NewCache (config.mkCacheConfig 2 10 "" "default" "" 0)
     = cache.mkCustomCache (RedisMarshaler "" "default" "" 0) "Redis".
Proof. repeat split. Qed.

(** C3. [NewStorage] with storage type 1 configures the document-oriented
    store from the database and the URL and returns it (or ends in
    [log.Fatalln] with the error of the configuration); with any other
    type it returns the no-op store without any request.  [NewCache] with
    cache type 2 builds the Redis cache from the address and credentials;
    with type 1 or any other value it builds the Freecache cache from the
    size. *)
Theorem selector_dispatch :
  (forall cfg : config.StorageConfig,
      config.Storage_Type cfg = 1 ->
      NewStorage cfg
      = (call e <- SetDefaultConfig (3 * Second) (config.Storage_DB cfg)
                     (config.Storage_URL cfg) ;;
         match e with
         | Some err => Abort (LogFatal err)
         | None =>
             Ret (MongoStore
                    (mongo.mkMongoStore
                       (store.mkOptions [config.Storage_URL cfg]
                          (config.Storage_DB cfg) "")))
         end))
  /\ (forall cfg : config.StorageConfig,
         config.Storage_Type cfg <> 1 -> NewStorage cfg = Ret EmptyStore)
  /\ (forall cfg : config.CacheConfig,
         config.Cache_Type cfg = 2 ->
         cache.NewCache cfg
         = cache.mkCustomCache
             (RedisMarshaler (config.Cache_Address cfg)
                (config.Cache_Username cfg) (config.Cache_Password cfg)
                (config.Cache_Database cfg))
             "Redis")
  /\ (forall cfg : config.CacheConfig,
         config.Cache_Type cfg <> 2 ->
         cache.NewCache cfg
         = cache.mkCustomCache
             (FreecacheMarshaler
                (int64 (int64 (config.Cache_Size cfg * 1024) * 1024))
                (10 * Second))
             "Freecache").
Proof.
  repeat split.
  - apply NewStorage_mongo.
  - apply NewStorage_empty.
  - intros cfg Ht. unfold cache.NewCache. rewrite Ht. reflexivity.
  - intros cfg Ht. unfold cache.NewCache.
    destruct (Z.eqb_spec (config.Cache_Type cfg) 2); [contradiction |].
    destruct (Z.eqb (config.Cache_Type cfg) 1); reflexivity.
Qed.

Lemma selector_dispatch_witness :
  outcome (run memdriver.handle
             (NewStorage (config.mkStorageConfig 1 "mongodb://h" "db"))
             memdriver.start)
  = Returned (MongoStore
                (mongo.mkMongoStore
                   (store.mkOptions ["mongodb://h"] "db" "")))
  /\ NewStorage (config.mkStorageConfig 0 "mongodb://h" "db")
     = Ret EmptyStore
  /\ cache.name (cache.NewCache (config.mkCacheConfig 2 10 "h:6379" "" "" 0))
     = "Redis"
  /\ cache.name (cache.NewCache (config.mkCacheConfig 7 10 "" "" "" 0))
     = "Freecache".
Proof.
  destruct selector_dispatch as (Hm & He & Hr & Hf).
  split; [| split; [| split]].
  - rewrite (Hm (config.mkStorageConfig 1 "mongodb://h" "db") eq_refl).
    reflexivity.
  - apply (He (config.mkStorageConfig 0 "mongodb://h" "db")). discriminate.
  - rewrite (Hr (config.mkCacheConfig 2 10 "h:6379" "" "" 0) eq_refl).
    reflexivity.
  - rewrite (Hf (config.mkCacheConfig 7 10 "" "" "" 0)); [reflexivity |].
    discriminate.
Defined.

(** ** The precondition of [Init] *)

Lemma applyOpts_selector (o : store.Options) (db url : string) :
  applyOpts [store.WithDatabase db; store.WithNodes [url]] o
  = store.mkOptions [url] db (store.Table o).
Proof. reflexivity. Qed.

(** C10. [Init] of the document-oriented store panics on the index
    expression, before any request, when the accumulated options name no
    node, and otherwise configures the driver with the first node.
    [NewStorage] hands [Init] exactly one node, the configured URL, and so
    never ends in that panic, whatever the driver answers. *)
Theorem mongo_Init_needs_a_node :
  (forall s opts,
      store.Nodes (applyOpts opts (mongo.options s)) = [] ->
      mongo.Init s opts = Abort (PanicIndexOutOfRange 0 0))
  /\ (forall s opts node0 rest,
         store.Nodes (applyOpts opts (mongo.options s)) = node0 :: rest ->
         mongo.Init s opts
         = (call e <- SetDefaultConfig (3 * Second)
                        (store.Database (applyOpts opts (mongo.options s)))
                        node0 ;;
            Ret (mongo.mkMongoStore (applyOpts opts (mongo.options s)), e)))
  /\ (forall (cfg : config.StorageConfig) (o : store.Options),
         store.Nodes
           (applyOpts [store.WithDatabase (config.Storage_DB cfg);
                       store.WithNodes [config.Storage_URL cfg]] o)
         = [config.Storage_URL cfg])
  /\ (forall (cfg : config.StorageConfig) (W : Type) (h : handler W) (w : W)
             (i n : Z),
         outcome (run h (NewStorage cfg) w)
         <> Aborted (PanicIndexOutOfRange i n)).
Proof.
  repeat split.
  - intros s opts Hn. unfold mongo.Init, mongo.configure. simpl.
    rewrite Hn. reflexivity.
  - intros s opts node0 rest Hn. unfold mongo.Init, mongo.configure. simpl.
    rewrite Hn. reflexivity.
  - intros cfg W h w i n.
    destruct (Z.eq_dec (config.Storage_Type cfg) 1) as [Ht | Ht].
    + rewrite (NewStorage_mongo cfg Ht), run_Do. simpl.
      destruct (fst (h _ _ w)); simpl; discriminate.
    + rewrite (NewStorage_empty cfg Ht). simpl. discriminate.
Qed.

Lemma mongo_Init_needs_a_node_witness :
  mongo.Init mongo.NewMongoStore [store.WithDatabase "db"]
  = Abort (PanicIndexOutOfRange 0 0)
  /\ outcome (run memdriver.handle
                (mongo.Init mongo.NewMongoStore [store.WithNodes ["u"; "v"]])
                memdriver.start)
     = Returned (mongo.mkMongoStore (store.mkOptions ["u"; "v"] "" ""), None).
Proof.
  destruct mongo_Init_needs_a_node as (Hp & Hi & _ & _). split.
  - apply (Hp mongo.NewMongoStore [store.WithDatabase "db"]). reflexivity.
  - rewrite (Hi mongo.NewMongoStore [store.WithNodes ["u"; "v"]] "u" ["v"]
               eq_refl).
    reflexivity.
Defined.

(** ** Deadlines of the document-oriented variant *)

Section Deadlines.

(** Split a goal about the requests of a tree along the tree, answering
    each request in both ways. *)
Ltac walk :=
  repeat match goal with
         | |- AllCalls _ (match ?e with _ => _ end) => destruct e
         | |- AllCalls _ (if ?b then _ else _) => destruct b
         | |- AllCalls _ (Do _ _) => split; [| intro]
         | |- AllCalls _ (Ret _) => exact I
         | |- AllCalls _ _ => progress simpl
         | |- has_deadline _ _ _ =>
             let c := fresh "c" in
             let H := fresh "H" in
             intros c H; simpl in H;
             first [ discriminate H
                   | injection H as <-; simpl; solve [ auto ] ]
         end.

Lemma TransactionWithCtx_deadline (d : option Z) (ctx : Context)
    (f : Session -> Context -> prog error) :
  Deadline ctx = d ->
  (forall s, AllCalls (has_deadline d) (f s (WithSession ctx s))) ->
  AllCalls (has_deadline d) (TransactionWithCtx ctx f).
Proof.
  intros Hd Hf. unfold TransactionWithCtx. walk.
  apply AllCalls_bind; [apply Hf |]. intros res. walk.
Qed.

Lemma mongo_List_deadline s ctx opts :
  AllCalls (has_deadline (Deadline ctx)) (mongo.List s ctx opts).
Proof. unfold mongo.List. walk. Qed.

Lemma mongo_Read_deadline s ctx opts :
  AllCalls (has_deadline (Deadline ctx)) (mongo.Read s ctx opts).
Proof. unfold mongo.Read. walk. Qed.

Lemma mongo_Write_deadline s ctx payload opts :
  AllCalls (has_deadline (Deadline ctx)) (mongo.Write s ctx payload opts).
Proof.
  unfold mongo.Write. apply TransactionWithCtx_deadline; [reflexivity |].
  intros session. walk.
Qed.

Lemma mongo_Update_deadline s ctx payload opts :
  AllCalls (has_deadline (Deadline ctx)) (mongo.Update s ctx payload opts).
Proof.
  unfold mongo.Update. apply TransactionWithCtx_deadline; [reflexivity |].
  intros session. walk.
Qed.

Lemma mongo_Delete_deadline s ctx opts :
  exists k,
    mongo.Delete s ctx opts = Do Now k
    /\ forall now,
         AllCalls (has_deadline (Some (now + 3 * Second))) (k now).
Proof.
  eexists. split; [reflexivity |]. intros now. cbv beta.
  apply TransactionWithCtx_deadline; [reflexivity |].
  intros session. walk.
Qed.

Example Delete_trace :
  trace (run memdriver.handle
           (mongo.Delete mongo.NewMongoStore (WithDeadline Background 5)
              [storage.DeleteFrom "db" "files"; storage.DeleteKey "id";
               storage.DeleteValue "7"])
           memdriver.start)
  = [Ev Now 0;
     Ev StartSession (inr 0);
     Ev (StartTransaction 0) None;
     Ev (DeleteOne (WithDeadline Background 3000000000) "files"
           [("id", "7")]) None;
     Ev (CommitTransaction 0
           (WithSession (WithDeadline Background 3000000000) 0)) None;
     Ev (EndSession 0 (WithDeadline Background 3000000000)) tt].
Proof. reflexivity. Qed.

(** C6. Whatever context the caller passes, [Delete] of the
    document-oriented variant reads the clock once and issues every one of
    its requests under the deadline three seconds (3 000 000 000 ns) after
    that reading; the caller's context does not occur in it at all.
    [List], [Read], [Write] and [Update] issue every request under the
    deadline of the caller's context, or under none when it has none. *)
Theorem mongo_Delete_deadline_is_its_own :
  3 * Second = 3000000000
  /\ (forall s ctx opts (W : Type) (h : handler W) (w : W),
         exists now rest,
           trace (run h (mongo.Delete s ctx opts) w) = Ev Now now :: rest
           /\ deadlines_are (Some (now + 3 * Second)) rest)
  /\ (forall s ctx ctx' opts,
         mongo.Delete s ctx opts = mongo.Delete s ctx' opts)
  /\ (forall s ctx (W : Type) (h : handler W) (w : W),
         (forall opts,
             deadlines_are (Deadline ctx)
               (trace (run h (mongo.List s ctx opts) w)))
         /\ (forall opts,
                deadlines_are (Deadline ctx)
                  (trace (run h (mongo.Read s ctx opts) w)))
         /\ (forall payload opts,
                deadlines_are (Deadline ctx)
                  (trace (run h (mongo.Write s ctx payload opts) w)))
         /\ (forall payload opts,
                deadlines_are (Deadline ctx)
                  (trace (run h (mongo.Update s ctx payload opts) w)))).
Proof.
  split; [reflexivity |]. split; [| split].
  - intros s ctx opts W h w.
    destruct (mongo_Delete_deadline s ctx opts) as (k & E & Hk).
    rewrite E, run_Do. simpl. do 2 eexists. split; [reflexivity |].
    apply AllCalls_trace, Hk.
  - reflexivity.
  - intros s ctx W h w. unfold deadlines_are. repeat split; intros.
    + apply AllCalls_trace, mongo_List_deadline.
    + apply AllCalls_trace, mongo_Read_deadline.
    + apply AllCalls_trace, mongo_Write_deadline.
    + apply AllCalls_trace, mongo_Update_deadline.
Qed.

End Deadlines.

(** ** Transactions of the document-oriented variant *)

Section Transactions.
Context {W : Type} (h : handler W).

(** Case analysis on the reply that decides how the tree goes on. *)
Ltac answer :=
  match goal with
  | |- context [match fst (h (Err + Session)%type ?c ?w) with _ => _ end] =>
      let r := fresh "r" in
      let E := fresh "E" in
      destruct (fst (h _ c w)) as [r | r] eqn:E
  | |- context [match fst (h error ?c ?w) with _ => _ end] =>
      let r := fresh "r" in
      let E := fresh "E" in
      destruct (fst (h error c w)) as [r |] eqn:E
  end.

Ltac unroll :=
  repeat first [ answer
               | rewrite run_Do
               | progress cbn [outcome final trace bind] ];
  cbn [run outcome final trace].

Ltac disciplined :=
  constructor; cbn; intros;
  solve [ reflexivity | discriminate | lia
        | eexists; split; reflexivity ].

(** The failing document operation [e] of a trace: its error is returned
    and nothing was committed. *)
Ltac failed_op :=
  let e := fresh "e" in
  let err := fresh "err" in
  let Hfind := fresh "Hfind" in
  let Herr := fresh "Herr" in
  intros e err Hfind Herr; cbn in Hfind;
  first
    [ discriminate Hfind
    | injection Hfind as <-; cbn in Herr;
      first
        [ discriminate Herr
        | injection Herr as <-; split; reflexivity ] ].

Lemma Write_discipline s ctx payload opts w :
  transaction_discipline (trace (run h (mongo.Write s ctx payload opts) w)).
Proof. unfold mongo.Write, TransactionWithCtx. unroll; disciplined. Qed.

Lemma Update_discipline s ctx payload opts w :
  transaction_discipline (trace (run h (mongo.Update s ctx payload opts) w)).
Proof. unfold mongo.Update, TransactionWithCtx. unroll; disciplined. Qed.

Lemma Delete_discipline s ctx opts w :
  transaction_discipline (trace (run h (mongo.Delete s ctx opts) w)).
Proof. unfold mongo.Delete, TransactionWithCtx. unroll; disciplined. Qed.

Lemma Write_failure s ctx payload opts w :
  let r := run h (mongo.Write s ctx payload opts) w in
  forall e err,
    List.find is_doc_op (trace r) = Some e ->
    reply_error e = Some err ->
    outcome r = Returned (Some err)
    /\ existsb is_commit (trace r) = false.
Proof. unfold mongo.Write, TransactionWithCtx. unroll; failed_op. Qed.

Lemma Update_failure s ctx payload opts w :
  let r := run h (mongo.Update s ctx payload opts) w in
  forall e err,
    List.find is_doc_op (trace r) = Some e ->
    reply_error e = Some err ->
    outcome r = Returned (Some err)
    /\ existsb is_commit (trace r) = false.
Proof. unfold mongo.Update, TransactionWithCtx. unroll; failed_op. Qed.

Lemma Delete_failure s ctx opts w :
  let r := run h (mongo.Delete s ctx opts) w in
  forall e err,
    List.find is_doc_op (trace r) = Some e ->
    reply_error e = Some err ->
    outcome r = Returned (Some err)
    /\ existsb is_commit (trace r) = false.
Proof. unfold mongo.Delete, TransactionWithCtx. unroll; failed_op. Qed.

(** The order of the requests of a mutating call: one session, ended by
    the last request; one document operation once the transaction is open,
    issued after its start and before the commit; a commit only after the
    operation answered nil; on an error of the operation the call returns
    it and issues no commit. *)
Lemma mongo_mutation_request_order :
  forall (s : mongo.mongoStore) (ctx : Context) (m : Mutation) (w : W),
    let r := run h (mongo_mutate s ctx m) w in
    transaction_discipline (trace r)
    /\ forall e err,
         List.find is_doc_op (trace r) = Some e ->
         reply_error e = Some err ->
         outcome r = Returned (Some err)
         /\ existsb is_commit (trace r) = false.
Proof.
  intros s ctx [payload opts | payload opts | opts] w; cbn [mongo_mutate];
    split.
  - apply Write_discipline.
  - apply Write_failure.
  - apply Update_discipline.
  - apply Update_failure.
  - apply Delete_discipline.
  - apply Delete_failure.
Qed.

(** Where each request of a finished trace was issued: the document
    operations under no session, every commit under the session granted at
    the head of the trace. *)
Ltac granted_session :=
  eexists; split; [reflexivity |];
  first [ left; reflexivity | right; left; reflexivity ].

Ltac sessions_of_trace Hctx :=
  split; [| split];
  [ cbn; intros Hopen;
    first
      [ discriminate Hopen
      | eexists; split; [reflexivity |]; cbn;
        split; [first [ exact Hctx | reflexivity ] |];
        split;
        [ intros Hnil;
          first [ discriminate Hnil
                | do 2 eexists; split; [reflexivity |];
                  split; [reflexivity |];
                  first [ left; reflexivity | right; left; reflexivity ] ]
        | intros Herr;
          first [ reflexivity | exfalso; apply Herr; reflexivity ] ] ]
  | intros e Hin Hop; cbn in Hin;
    repeat (destruct Hin as [<- | Hin]; [cbn in Hop |- *;
              first [ discriminate Hop | exact Hctx | reflexivity ] |]);
    destruct Hin
  | intros e Hin Hcommit; cbn in Hin;
    repeat (destruct Hin as [<- | Hin]; [cbn in Hcommit |- *;
              first [ discriminate Hcommit | granted_session ] |]);
    destruct Hin ].

(** C2. The document operation of [Write], [Update] and [Delete] of the
    document-oriented variant is not part of the transaction the call
    opens.  For a caller's context that carries no session: once the
    transaction is open the call issues exactly one document operation,
    and it issues it under a context that carries no session; when that
    operation answers nil the call issues exactly one commit, under the
    context of the session it was granted, and when it answers an error
    the call issues no commit.  No document operation of the call is
    issued under a session, and every commit is issued under the session
    of the call.  So the commit closes a transaction that holds no
    operation. *)
Theorem mongo_mutation_op_outside_transaction :
  forall (s : mongo.mongoStore) (ctx : Context) (m : Mutation) (w : W),
    SessionOf ctx = None ->
    let tr := trace (run h (mongo_mutate s ctx m) w) in
    (existsb opens_transaction tr = true ->
     exists e,
       List.filter is_doc_op tr = [e]
       /\ ev_session e = None
       /\ (reply_error e = None ->
           exists c session,
             List.filter is_commit tr = [c]
             /\ ev_session c = Some session
             /\ In (Ev StartSession (inr session)) tr)
       /\ (reply_error e <> None -> List.filter is_commit tr = []))
    /\ (forall e, In e tr -> is_doc_op e = true -> ev_session e = None)
    /\ (forall e, In e tr -> is_commit e = true ->
        exists session,
          ev_session e = Some session
          /\ In (Ev StartSession (inr session)) tr).
Proof.
  intros s ctx [payload opts | payload opts | opts] w Hctx;
    cbn [mongo_mutate RefinedStore_Write RefinedStore_Update
           RefinedStore_Delete];
    unfold mongo.Write, mongo.Update, mongo.Delete, TransactionWithCtx;
    unroll; sessions_of_trace Hctx.
Qed.

End Transactions.

(** The document operation itself is issued under the context the method
    holds, not under the session context handed to the callback: it carries
    the caller's session, if the caller's context has one, in [Write] and
    [Update], and no session in [Delete].  Only the commit names the
    session the helper opened. *)
Remark mongo_doc_op_context :
  (forall s ctx payload opts,
      AllCalls (doc_op_session (SessionOf ctx))
        (mongo.Write s ctx payload opts))
  /\ (forall s ctx payload opts,
         AllCalls (doc_op_session (SessionOf ctx))
           (mongo.Update s ctx payload opts))
  /\ (forall s ctx opts,
         AllCalls (doc_op_session None) (mongo.Delete s ctx opts)).
Proof.
  repeat split; intros;
    unfold mongo.Write, mongo.Update, mongo.Delete, TransactionWithCtx;
    repeat match goal with
           | |- AllCalls _ (match ?e with _ => _ end) => destruct e
           | |- AllCalls _ (bind (match ?e with _ => _ end) _) => destruct e
           | |- AllCalls _ (Ret _) => exact I
           | |- AllCalls _ _ => progress simpl
           | |- _ /\ _ => split
           | |- forall _, _ => intro
           | |- True => exact I
           | |- _ = _ => reflexivity
           end.
Qed.

Example Write_nil_document_trace :
  run memdriver.handle
    (mongo.Write mongo.NewMongoStore Background Nil
       [storage.WriteTo "db" "files"])
    memdriver.start
  = mkRun (Returned (Some (DriverError 3)))
      (memdriver.mkWorld ∅ ∅ 0 1)
      [Ev StartSession (inr 0);
       Ev (StartTransaction 0) None;
       Ev (InsertOne Background "files" Nil) (Some (DriverError 3));
       Ev (EndSession 0 Background) tt].
Proof. reflexivity. Qed.

Lemma mongo_mutation_op_outside_transaction_witness :
  let tr := trace (run memdriver.handle
                     (mongo_mutate mongo.NewMongoStore Background
                        (MWrite (Ptr 1) [storage.WriteTo "db" "files"]))
                     memdriver.start) in
  SessionOf Background = None
  /\ tr = [Ev StartSession (inr 0);
           Ev (StartTransaction 0) None;
           Ev (InsertOne Background "files" (Ptr 1)) None;
           Ev (CommitTransaction 0 (WithSession Background 0)) None;
           Ev (EndSession 0 Background) tt]
  /\ forall e, In e tr -> is_doc_op e = true -> ev_session e = None.
Proof.
  intros tr. split; [reflexivity |]. split; [reflexivity |].
  apply (mongo_mutation_op_outside_transaction memdriver.handle
           mongo.NewMongoStore Background
           (MWrite (Ptr 1) [storage.WriteTo "db" "files"]) memdriver.start
           eq_refl).
Defined.

(** What this means on a driver with transactions.  When the commit is
    refused, [Write] returns the error of the commit and yet the document
    is among those every reader sees: it was inserted outside the
    transaction.  The same call with the operation under the session
    context returns the same error and leaves no document. *)
Example Write_commit_refused_document_stays :
  let opts := [storage.WriteTo "db" "files"] in
  let code := run txdriver.handle
                (mongo.Write mongo.NewMongoStore Background (Ptr 1) opts)
                (txdriver.start false) in
  let spec := run txdriver.handle
                (Write_in_transaction Background (Ptr 1) opts)
                (txdriver.start false) in
  outcome code = Returned (Some (DriverError 6))
  /\ txdriver.docs (final code) !! "files" = Some [Ptr 1]
  /\ outcome spec = Returned (Some (DriverError 6))
  /\ txdriver.docs (final spec) !! "files" = None.
Proof. cbv zeta. repeat split; vm_compute; reflexivity. Qed.

(** When the commit is accepted the two agree on the documents at the end
    of the call; they differ before the commit, where the document of the
    code is already visible. *)
Example Write_commit_accepted_document_stored :
  let opts := [storage.WriteTo "db" "files"] in
  let code := run txdriver.handle
                (mongo.Write mongo.NewMongoStore Background (Ptr 1) opts)
                (txdriver.start true) in
  let spec := run txdriver.handle
                (Write_in_transaction Background (Ptr 1) opts)
                (txdriver.start true) in
  outcome code = Returned None
  /\ txdriver.docs (final code) !! "files" = Some [Ptr 1]
  /\ outcome spec = Returned None
  /\ txdriver.docs (final spec) !! "files" = Some [Ptr 1].
Proof. cbv zeta. repeat split; vm_compute; reflexivity. Qed.

(** ** The cache facade *)

Section CacheFacade.
Context {W : Type} (h : handler W).

Lemma Put_run (c : cache.CustomCache) ctx key val d w :
  run h (cache.Put c ctx key val d) w
  = mkRun (Returned (fst (h _ (MarshalerSet (cache.store_ c) ctx key val d) w)))
          (snd (h _ (MarshalerSet (cache.store_ c) ctx key val d) w))
          [Ev (MarshalerSet (cache.store_ c) ctx key val d)
              (fst (h _ (MarshalerSet (cache.store_ c) ctx key val d) w))].
Proof. unfold cache.Put. rewrite run_Do. reflexivity. Qed.

Lemma Get_run (c : cache.CustomCache) ctx key w :
  let get := MarshalerGet (cache.store_ c) ctx key in
  let g := fst (h _ get w) in
  let w1 := snd (h _ get w) in
  run h (cache.Get c ctx key) w
  = mkRun (Returned (fst g, fst (h _ Now w1), snd g)) (snd (h _ Now w1))
          [Ev get g; Ev Now (fst (h _ Now w1))].
Proof. intros get g w1. unfold cache.Get. rewrite !run_Do. reflexivity. Qed.

(** C5 (amended). For every cache built by the facade (so for both
    variants), every key, value and ttl and every state of the store,
    holding an entry for the key or not: [Put] issues the one request
    [Set] of the marshaler, with the key, the value and the ttl as the
    expiration, and returns its error; [Get] issues the one request [Get]
    of the marshaler for the key, reads the clock, and returns what the
    marshaler decoded, the clock reading and the marshaler's error.  So
    [Get] right after [Put] returns the value put and a nil error exactly
    when the marshaler, asked right after its [Set], decodes that very
    value without error. *)
Theorem cache_get_after_put :
  forall (c : cache.CustomCache) (ctx ctx' : Context) (key : string)
         (val : any) (d : Z) (w : W),
    let set := MarshalerSet (cache.store_ c) ctx key val d in
    let get := MarshalerGet (cache.store_ c) ctx' key in
    let w1 := snd (h _ set w) in
    let g := fst (h _ get w1) in
    let w2 := snd (h _ get w1) in
    let p := run h (cache.Put c ctx key val d) w in
    p = mkRun (Returned (fst (h _ set w))) w1 [Ev set (fst (h _ set w))]
    /\ run h (cache.Get c ctx' key) (final p)
       = mkRun (Returned (fst g, fst (h _ Now w2), snd g)) (snd (h _ Now w2))
           [Ev get g; Ev Now (fst (h _ Now w2))]
    /\ (g = (val, None) ->
        outcome (run h (cache.Get c ctx' key) (final p))
        = Returned (val, fst (h _ Now w2), None))
    /\ (forall now,
           outcome (run h (cache.Get c ctx' key) (final p))
           = Returned (val, now, None) ->
           g = (val, None)).
Proof.
  intros c ctx ctx' key val d w set get w1 g w2 p.
  assert (Hp : p = mkRun (Returned (fst (h _ set w))) w1
                     [Ev set (fst (h _ set w))])
    by apply Put_run.
  split; [exact Hp |].
  rewrite Hp. cbn [final]. rewrite Get_run. fold get. fold g. fold w2.
  split; [reflexivity |]. cbn [outcome]. split.
  - intros Hg. rewrite Hg. reflexivity.
  - intros now [= Hv _ He]. destruct g as [v e]. cbn in Hv, He.
    subst. reflexivity.
Qed.

End CacheFacade.

(** On a marshaling layer that decodes into the untyped target, a record
    put into the cache (of either variant) with a positive ttl is stored
    without error, and the [Get] that follows returns without error a
    value that is not the one put. *)
Lemma cache_get_returns_decoded_value :
  let local := cache.NewCache (config.mkCacheConfig 1 10 "" "" "" 0) in
  let redis := cache.NewCache (config.mkCacheConfig 2 10 "h:6379" "" "" 0) in
  let p := run codecdriver.handle
             (cache.Put local Background "k" (RecordPtr 1) 5)
             memdriver.start in
  let q := run codecdriver.handle
             (cache.Put redis Background "k" (RecordPtr 1) 5)
             memdriver.start in
  0 < 5
  /\ outcome p = Returned None
  /\ outcome (run codecdriver.handle (cache.Get local Background "k")
                (final p))
     = Returned (Ptr 1, 0, None)
  /\ outcome q = Returned None
  /\ outcome (run codecdriver.handle (cache.Get redis Background "k")
                (final q))
     = Returned (Ptr 1, 0, None)
  /\ Ptr 1 <> RecordPtr 1.
Proof. cbv zeta. repeat split; try reflexivity. discriminate. Qed.

Lemma cache_get_after_put_witness :
  let redis := cache.NewCache (config.mkCacheConfig 2 10 "h:6379" "" "" 0) in
  outcome (run memdriver.handle (cache.Get redis Background "k")
             (final (run memdriver.handle
                       (cache.Put redis Background "k" (Ptr 1) 5)
                       memdriver.start)))
  = Returned (Ptr 1, 0, None).
Proof.
  intros redis.
  apply (cache_get_after_put memdriver.handle redis Background Background
           "k" (Ptr 1) 5 memdriver.start).
  reflexivity.
Defined.

(* ===================================================================== *)
(** * Part III: further properties of the code                            *)
(* ===================================================================== *)

Local Open Scope list_scope.

(** ** More on [TrimSpace] *)

Section TrimSpaceShape.
Import gostrings.

(** What [trimLeft] drops is white space. *)
Lemma trimLeft_split (n : nat) :
  forall s, (length s <= n)%nat ->
            exists pre, s = (pre ++ trimLeft s)%list /\ WhitespaceOnly pre.
Proof.
  induction n as [| n IH]; intros s Hlen.
  - destruct s; [| simpl in Hlen; lia]. exists []. split; [reflexivity |].
    apply ws_nil.
  - destruct s as [| a t1].
    { exists []. split; [reflexivity | apply ws_nil]. }
    simpl in Hlen. cbn [trimLeft].
    destruct (asciiSpace a) eqn:Ha.
    { destruct (IH t1 ltac:(lia)) as (pre & E & Hpre).
      exists ([a] ++ pre)%list. split.
      - simpl. f_equal. exact E.
      - apply ws_rune; [exact Ha | exact Hpre]. }
    destruct t1 as [| b t2].
    { exists []. split; [reflexivity | apply ws_nil]. }
    simpl in Hlen.
    destruct (space2 a b) eqn:Hb.
    { destruct (IH t2 ltac:(lia)) as (pre & E & Hpre).
      exists ([a; b] ++ pre)%list. split.
      - simpl. do 2 f_equal. exact E.
      - apply ws_rune; [exact Hb | exact Hpre]. }
    destruct t2 as [| c t3].
    { exists []. split; [reflexivity | apply ws_nil]. }
    simpl in Hlen.
    destruct (space3 a b c) eqn:Hc.
    { destruct (IH t3 ltac:(lia)) as (pre & E & Hpre).
      exists ([a; b; c] ++ pre)%list. split.
      - simpl. do 3 f_equal. exact E.
      - apply ws_rune; [exact Hc | exact Hpre]. }
    exists []. split; [reflexivity | apply ws_nil].
Qed.

Lemma trimRev_split (n : nat) :
  forall r, (length r <= n)%nat ->
            exists pre, r = (pre ++ trimRev r)%list
                        /\ WhitespaceOnly (rev pre).
Proof.
  induction n as [| n IH]; intros r Hlen.
  - destruct r; [| simpl in Hlen; lia]. exists []. split; [reflexivity |].
    apply ws_nil.
  - destruct r as [| a t1].
    { exists []. split; [reflexivity | apply ws_nil]. }
    simpl in Hlen. cbn [trimRev].
    destruct (asciiSpace a) eqn:Ha.
    { destruct (IH t1 ltac:(lia)) as (pre & E & Hpre).
      exists ([a] ++ pre)%list. split.
      - simpl. f_equal. exact E.
      - simpl. apply WhitespaceOnly_snoc; [exact Hpre | exact Ha]. }
    destruct t1 as [| b t2].
    { exists []. split; [reflexivity | apply ws_nil]. }
    simpl in Hlen.
    destruct (space2 b a) eqn:Hb.
    { destruct (IH t2 ltac:(lia)) as (pre & E & Hpre).
      exists ([a; b] ++ pre)%list. split.
      - simpl. do 2 f_equal. exact E.
      - simpl. rewrite <- app_assoc.
        apply WhitespaceOnly_snoc; [exact Hpre | exact Hb]. }
    destruct t2 as [| c t3].
    { exists []. split; [reflexivity | apply ws_nil]. }
    simpl in Hlen.
    destruct (space3 c b a) eqn:Hc.
    { destruct (IH t3 ltac:(lia)) as (pre & E & Hpre).
      exists ([a; b; c] ++ pre)%list. split.
      - simpl. do 3 f_equal. exact E.
      - simpl. rewrite <- !app_assoc.
        apply WhitespaceOnly_snoc; [exact Hpre | exact Hc]. }
    exists []. split; [reflexivity | apply ws_nil].
Qed.

Lemma trimLeft_length s : (length (trimLeft s) <= length s)%nat.
Proof.
  destruct (trimLeft_split _ s (le_n _)) as (pre & E & _).
  rewrite E at 2. rewrite length_app. lia.
Qed.

Lemma trimRev_length r : (length (trimRev r) <= length r)%nat.
Proof.
  destruct (trimRev_split _ r (le_n _)) as (pre & E & _).
  rewrite E at 2. rewrite length_app. lia.
Qed.

(** A prefix of a sequence that [trimLeft] leaves alone is left alone. *)
Lemma trimLeft_prefix_fixed x post :
  trimLeft (x ++ post) = (x ++ post)%list -> trimLeft x = x.
Proof.
  intros H.
  destruct x as [| a x1]; [reflexivity |].
  simpl in H. cbn [trimLeft].
  destruct (asciiSpace a) eqn:Ha.
  { pose proof (trimLeft_length (x1 ++ post)) as L. rewrite H in L.
    simpl in L. lia. }
  destruct x1 as [| b x2]; [reflexivity |].
  simpl in H.
  destruct (space2 a b) eqn:Hb.
  { pose proof (trimLeft_length (x2 ++ post)) as L. rewrite H in L.
    simpl in L. lia. }
  destruct x2 as [| c x3]; [reflexivity |].
  simpl in H.
  destruct (space3 a b c) eqn:Hc; [| reflexivity].
  pose proof (trimLeft_length (x3 ++ post)) as L. rewrite H in L.
  simpl in L. lia.
Qed.

Lemma trimRev_idempotent (n : nat) :
  forall r, (length r <= n)%nat -> trimRev (trimRev r) = trimRev r.
Proof.
  induction n as [| n IH]; intros r Hlen.
  - destruct r; [reflexivity | simpl in Hlen; lia].
  - destruct r as [| a t1]; [reflexivity |].
    simpl in Hlen. cbn [trimRev].
    destruct (asciiSpace a) eqn:Ha; [apply IH; lia |].
    destruct t1 as [| b t2].
    { cbn [trimRev]. rewrite Ha. reflexivity. }
    simpl in Hlen.
    destruct (space2 b a) eqn:Hb; [apply IH; lia |].
    destruct t2 as [| c t3].
    { cbn [trimRev]. rewrite Ha, Hb. reflexivity. }
    simpl in Hlen.
    destruct (space3 c b a) eqn:Hc; [apply IH; lia |].
    cbn [trimRev]. rewrite Ha, Hb, Hc. reflexivity.
Qed.

Lemma codes_bounded s : Forall (fun n => (n < 256)%N) (codes s).
Proof.
  unfold codes. induction s as [| a s IH]; simpl; constructor.
  - apply N_ascii_bounded.
  - exact IH.
Qed.

Lemma codes_of_codes l :
  Forall (fun n => (n < 256)%N) l -> codes (of_codes l) = l.
Proof.
  unfold codes, of_codes. induction 1 as [| n l Hn _ IH]; [reflexivity |].
  simpl. rewrite N_ascii_embedding by exact Hn. f_equal. exact IH.
Qed.

Lemma of_codes_codes s : of_codes (codes s) = s.
Proof.
  unfold codes, of_codes. induction s as [| a s IH]; [reflexivity |].
  simpl. rewrite ascii_N_embedding. f_equal. exact IH.
Qed.

(** The bytes of the trimmed string, between the white space dropped on
    either side. *)
Lemma TrimSpace_codes_split s :
  exists pre post,
    codes s = (pre ++ trimRight (trimLeft (codes s)) ++ post)%list
    /\ WhitespaceOnly pre /\ WhitespaceOnly post.
Proof.
  destruct (trimLeft_split _ (codes s) (le_n _)) as (pre & E & Hpre).
  destruct (trimRev_split _ (rev (trimLeft (codes s))) (le_n _))
    as (q & Eq & Hq).
  exists pre, (rev q). split; [| split; [exact Hpre | exact Hq]].
  unfold trimRight.
  rewrite <- rev_app_distr, <- Eq, rev_involutive. exact E.
Qed.

Lemma TrimSpace_codes s :
  codes (TrimSpace s) = trimRight (trimLeft (codes s)).
Proof.
  unfold TrimSpace. apply codes_of_codes.
  destruct (TrimSpace_codes_split s) as (pre & post & E & _).
  pose proof (codes_bounded s) as B. rewrite E in B.
  apply Forall_app in B as [_ B]. apply Forall_app in B as [B _]. exact B.
Qed.

(** Trimming twice is trimming once. *)
Lemma TrimSpace_idempotent s : TrimSpace (TrimSpace s) = TrimSpace s.
Proof.
  unfold TrimSpace at 1. rewrite TrimSpace_codes. unfold TrimSpace.
  f_equal.
  set (y := trimLeft (codes s)).
  assert (Hy : trimLeft y = y) by apply (trimLeft_idempotent _ _ (le_n _)).
  destruct (trimRev_split _ (rev y) (le_n _)) as (q & Eq & _).
  assert (Ey : y = (trimRight y ++ rev q)%list).
  { unfold trimRight. rewrite <- rev_app_distr, <- Eq, rev_involutive.
    reflexivity. }
  assert (Hx : trimLeft (trimRight y) = trimRight y).
  { apply (trimLeft_prefix_fixed _ (rev q)). rewrite <- Ey. exact Hy. }
  rewrite Hx. unfold trimRight. rewrite rev_involutive.
  rewrite (trimRev_idempotent _ _ (le_n _)). reflexivity.
Qed.

End TrimSpaceShape.

(** ** Validation normalises the configuration *)

Lemma TrimSpace_surrounded s :
  exists pre post,
    gostrings.codes s
    = (pre ++ gostrings.codes (gostrings.TrimSpace s) ++ post)%list
    /\ gostrings.WhitespaceOnly pre /\ gostrings.WhitespaceOnly post.
Proof.
  rewrite TrimSpace_codes. apply TrimSpace_codes_split.
Qed.

Section TrimSpaceBare.
Import gostrings.

Lemma asciiSpace_small c : asciiSpace c = true -> (c <= 32)%N.
Proof.
  unfold asciiSpace. intros H.
  repeat (apply orb_prop in H as [H | H]);
    apply N.eqb_eq in H; subst c; discriminate.
Qed.

Lemma space2_last a b : space2 a b = true -> (128 <= b)%N.
Proof.
  unfold space2. intros H. apply andb_prop in H as [_ H].
  apply orb_prop in H as [H | H]; apply N.eqb_eq in H; subst b;
    discriminate.
Qed.

Lemma space3_mid a b c :
  space3 a b c = true -> b = 154%N \/ b = 128%N \/ b = 129%N.
Proof.
  unfold space3. intros H.
  repeat (apply orb_prop in H as [H | H]);
    apply andb_prop in H as [H _]; apply andb_prop in H as [_ H];
    apply N.eqb_eq in H; subst b; auto.
Qed.

Lemma space3_last a b c : space3 a b c = true -> (128 <= c)%N.
Proof.
  unfold space3. intros H.
  repeat (apply orb_prop in H as [H | H]);
    apply andb_prop in H as [_ H];
    repeat (apply orb_prop in H as [H | H]);
    try (apply andb_prop in H as [H _]; apply N.leb_le in H; exact H);
    apply N.eqb_eq in H; subst c; discriminate.
Qed.

Lemma big_not_ascii c : (128 <= c)%N -> asciiSpace c = false.
Proof.
  intros H. destruct (asciiSpace c) eqn:E; [| reflexivity].
  apply asciiSpace_small in E. lia.
Qed.

(** One white-space rune at the back is dropped. *)
Lemma trimRev_rune r s :
  spaceRune r = true -> trimRev (rev r ++ s) = trimRev s.
Proof.
  destruct r as [| a [| b [| c [| d r]]]]; simpl; try discriminate.
  - intros ->. reflexivity.
  - intros H. rewrite (big_not_ascii _ (space2_last _ _ H)), H.
    reflexivity.
  - intros H. rewrite (big_not_ascii _ (space3_last _ _ _ H)).
    assert (Hb : space2 b c = false).
    { unfold space2.
      destruct (space3_mid _ _ _ H) as [-> | [-> | ->]]; reflexivity. }
    rewrite Hb, H. reflexivity.
Qed.

Lemma spaceRune_nonempty r : spaceRune r = true -> (0 < length r)%nat.
Proof. destruct r; simpl; [discriminate | lia]. Qed.

(** What [trimLeft] leaves alone does not begin with a white-space rune;
    what [trimRev] leaves alone, read backwards, does not end with one. *)
Lemma trimLeft_fixed_bare y r rest :
  trimLeft y = y -> spaceRune r = true -> y <> r ++ rest.
Proof.
  intros Hy Hr ->. rewrite trimLeft_rune in Hy by exact Hr.
  pose proof (trimLeft_length rest) as L. rewrite Hy in L.
  pose proof (spaceRune_nonempty _ Hr). rewrite length_app in L. lia.
Qed.

Lemma trimRev_fixed_bare y r rest :
  trimRev (rev y) = rev y -> spaceRune r = true -> y <> rest ++ r.
Proof.
  intros Hy Hr ->. rewrite rev_app_distr, trimRev_rune in Hy by exact Hr.
  pose proof (trimRev_length (rev rest)) as L. rewrite Hy in L.
  pose proof (spaceRune_nonempty _ Hr).
  rewrite length_app, !length_rev in L. lia.
Qed.

(** The trimmed string neither begins nor ends with a white-space rune. *)
Lemma TrimSpace_bare s r rest :
  spaceRune r = true ->
  codes (TrimSpace s) <> r ++ rest /\ codes (TrimSpace s) <> rest ++ r.
Proof.
  intros Hr. rewrite TrimSpace_codes.
  set (y := trimLeft (codes s)).
  assert (Hy : trimLeft y = y) by apply (trimLeft_idempotent _ _ (le_n _)).
  destruct (trimRev_split _ (rev y) (le_n _)) as (q & Eq & _).
  assert (Ey : y = (trimRight y ++ rev q)%list).
  { unfold trimRight. rewrite <- rev_app_distr, <- Eq, rev_involutive.
    reflexivity. }
  split.
  - apply trimLeft_fixed_bare; [| exact Hr].
    apply (trimLeft_prefix_fixed _ (rev q)). rewrite <- Ey. exact Hy.
  - apply trimRev_fixed_bare; [| exact Hr].
    unfold trimRight. rewrite rev_involutive.
    apply (trimRev_idempotent _ _ (le_n _)).
Qed.

End TrimSpaceBare.

(** X1. [StorageConfig.Validate] leaves the type alone and replaces the URL
    and the database name by their [strings.TrimSpace], whether it then
    accepts or not: each was the new value with white space, and nothing
    else, before and after it, and the new value neither begins nor ends
    with a white-space rune.  Validating the configuration it hands back
    changes nothing more and gives the same verdict. *)
Theorem StorageConfig_Validate_normalises :
  forall p : config.StorageConfig,
    let p' := fst (config.StorageConfig_Validate p) in
    p' = config.mkStorageConfig (config.Storage_Type p)
           (gostrings.TrimSpace (config.Storage_URL p))
           (gostrings.TrimSpace (config.Storage_DB p))
    /\ (exists pre post,
           gostrings.codes (config.Storage_URL p)
           = (pre ++ gostrings.codes (config.Storage_URL p') ++ post)%list
           /\ gostrings.WhitespaceOnly pre /\ gostrings.WhitespaceOnly post)
    /\ (exists pre post,
           gostrings.codes (config.Storage_DB p)
           = (pre ++ gostrings.codes (config.Storage_DB p') ++ post)%list
           /\ gostrings.WhitespaceOnly pre /\ gostrings.WhitespaceOnly post)
    /\ (forall r rest,
           gostrings.spaceRune r = true ->
           gostrings.codes (config.Storage_URL p') <> r ++ rest
           /\ gostrings.codes (config.Storage_URL p') <> rest ++ r
           /\ gostrings.codes (config.Storage_DB p') <> r ++ rest
           /\ gostrings.codes (config.Storage_DB p') <> rest ++ r)
    /\ config.StorageConfig_Validate p'
       = (p', snd (config.StorageConfig_Validate p)).
Proof.
  intros p p'.
  assert (E : p' = config.mkStorageConfig (config.Storage_Type p)
                     (gostrings.TrimSpace (config.Storage_URL p))
                     (gostrings.TrimSpace (config.Storage_DB p))).
  { subst p'. unfold config.StorageConfig_Validate.
    cbn [config.Storage_Type config.Storage_URL config.Storage_DB fst snd].
    destruct (Z.eqb (config.Storage_Type p) 1);
      destruct (String.eqb (gostrings.TrimSpace (config.Storage_URL p)) "");
      reflexivity. }
  split; [exact E |].
  rewrite E. cbn [config.Storage_Type config.Storage_URL config.Storage_DB].
  split; [apply TrimSpace_surrounded |].
  split; [apply TrimSpace_surrounded |].
  split.
  { intros r rest Hr.
    destruct (TrimSpace_bare (config.Storage_URL p) r rest Hr) as [H1 H2].
    destruct (TrimSpace_bare (config.Storage_DB p) r rest Hr) as [H3 H4].
    repeat split; assumption. }
  unfold config.StorageConfig_Validate.
    cbn [config.Storage_Type config.Storage_URL config.Storage_DB fst snd].
  rewrite !TrimSpace_idempotent.
  destruct (Z.eqb (config.Storage_Type p) 1);
    destruct (String.eqb (gostrings.TrimSpace (config.Storage_URL p)) "");
    reflexivity.
Qed.

Lemma StorageConfig_Validate_normalises_witness :
  let p := config.mkStorageConfig 1 "  mongodb://h:27017 " " db" in
  gostrings.spaceRune [32%N] = true
  /\ fst (config.StorageConfig_Validate p)
     = config.mkStorageConfig 1 "mongodb://h:27017" "db"
  /\ forall rest,
       gostrings.codes
         (config.Storage_URL (fst (config.StorageConfig_Validate p)))
       <> [32%N] ++ rest.
Proof.
  intros p.
  destruct (StorageConfig_Validate_normalises p) as (E & _ & _ & H & _).
  split; [reflexivity |]. split; [vm_compute; reflexivity |].
  intros rest. apply (H [32%N] rest). reflexivity.
Defined.

(** X2. A configuration that passed [StorageConfig.Validate] and selects
    the document-oriented store makes [NewStorage] configure the driver
    with a URL that is not empty and has no white space around it. *)
Theorem validated_storage_has_a_url :
  forall (p p' : config.StorageConfig),
    config.StorageConfig_Validate p = (p', None) ->
    config.Storage_Type p = 1 ->
    config.Storage_URL p' <> ""
    /\ gostrings.TrimSpace (config.Storage_URL p') = config.Storage_URL p'
    /\ exists k,
         NewStorage p'
         = Do (SetDefaultConfig (3 * Second) (config.Storage_DB p')
                 (config.Storage_URL p')) k.
Proof.
  intros p p' Hv Ht.
  pose proof (StorageConfig_Validate_spec p) as Hs. rewrite Hv in Hs.
  cbn [snd] in Hs.
  assert (E : p' = config.mkStorageConfig (config.Storage_Type p)
                     (gostrings.TrimSpace (config.Storage_URL p))
                     (gostrings.TrimSpace (config.Storage_DB p))).
  { apply (f_equal fst) in Hv. cbn [fst] in Hv. rewrite <- Hv.
    unfold config.StorageConfig_Validate.
    cbn [config.Storage_Type config.Storage_URL config.Storage_DB fst snd].
    destruct (Z.eqb (config.Storage_Type p) 1);
      destruct (String.eqb (gostrings.TrimSpace (config.Storage_URL p)) "");
      reflexivity. }
  subst p'. cbn [config.Storage_URL config.Storage_DB].
  split; [| split].
  - destruct (String.eqb_spec
                (gostrings.TrimSpace (config.Storage_URL p)) "")
      as [Heq | Hne]; [discriminate Hs | exact Hne].
  - apply TrimSpace_idempotent.
  - eexists. rewrite NewStorage_mongo by exact Ht. reflexivity.
Qed.

Lemma validated_storage_has_a_url_witness :
  config.Storage_URL
    (config.mkStorageConfig 1 "mongodb://h:27017" "adapters")
  <> "".
Proof.
  apply (validated_storage_has_a_url
           (config.mkStorageConfig 1 "  mongodb://h:27017 " " adapters")
           (config.mkStorageConfig 1 "mongodb://h:27017" "adapters")).
  - vm_compute. reflexivity.
  - reflexivity.
Defined.

(** ** The server configuration *)

Section ServerConfig.
Import serverconfig.

Local Abbreviation blank s :=
  (gostrings.WhitespaceOnly (gostrings.codes s)).

Lemma blank_eqb s :
  String.eqb (gostrings.TrimSpace s) "" = true <-> blank s.
Proof. rewrite String.eqb_eq. apply TrimSpace_empty_iff. Qed.

Lemma not_blank_eqb s :
  String.eqb (gostrings.TrimSpace s) "" = false <-> ~ blank s.
Proof.
  split.
  - intros H Hb. apply blank_eqb in Hb. congruence.
  - intros H. destruct (String.eqb (gostrings.TrimSpace s) "") eqn:E;
      [| reflexivity].
    exfalso. apply H, blank_eqb, E.
Qed.

(** X3. [ServerConfig.Validate] reports the first name that is empty or
    white space only, in the order namespace, name, address, repl address,
    and accepts exactly when none of the four is. *)
Theorem ServerConfig_Validate_first_blank :
  forall hs : ServerConfig,
    (blank (Namespace hs) ->
     snd (Validate hs)
     = Some (InvalidConfigurationParameterError
               "Namespace" "Should not be empty"))
    /\ (~ blank (Namespace hs) -> blank (Name hs) ->
        snd (Validate hs)
        = Some (InvalidConfigurationParameterError
                  "Name" "Should not be empty"))
    /\ (~ blank (Namespace hs) -> ~ blank (Name hs) ->
        blank (Address hs) ->
        snd (Validate hs)
        = Some (InvalidConfigurationParameterError
                  "Address" "Should not be empty"))
    /\ (~ blank (Namespace hs) -> ~ blank (Name hs) ->
        ~ blank (Address hs) -> blank (ReplAddress hs) ->
        snd (Validate hs)
        = Some (InvalidConfigurationParameterError
                  "Repl Address" "Should not be empty"))
    /\ (snd (Validate hs) = None
        <-> ~ blank (Namespace hs) /\ ~ blank (Name hs)
            /\ ~ blank (Address hs) /\ ~ blank (ReplAddress hs)).
Proof.
  intros hs. unfold Validate. cbn [Namespace Name Address ReplAddress].
  destruct (String.eqb (gostrings.TrimSpace (Namespace hs)) "") eqn:E1;
    [apply blank_eqb in E1 | apply not_blank_eqb in E1];
  destruct (String.eqb (gostrings.TrimSpace (Name hs)) "") eqn:E2;
    [apply blank_eqb in E2 | apply not_blank_eqb in E2 |
     apply blank_eqb in E2 | apply not_blank_eqb in E2];
  destruct (String.eqb (gostrings.TrimSpace (Address hs)) "") eqn:E3;
    first [apply blank_eqb in E3 | apply not_blank_eqb in E3];
  destruct (String.eqb (gostrings.TrimSpace (ReplAddress hs)) "") eqn:E4;
    first [apply blank_eqb in E4 | apply not_blank_eqb in E4];
  cbn [snd];
  repeat split; intros; try reflexivity; try contradiction;
    try discriminate; try tauto.
Qed.

Lemma ServerConfig_Validate_first_blank_witness :
  snd (Validate (mkServerConfig "onlyoffice" "  " "1" "" ":8080" false))
  = Some (InvalidConfigurationParameterError "Name" "Should not be empty").
Proof.
  destruct (ServerConfig_Validate_first_blank
              (mkServerConfig "onlyoffice" "  " "1" "" ":8080" false))
    as (_ & H & _).
  apply H.
  - rewrite <- TrimSpace_empty_iff. vm_compute. discriminate.
  - exact two_blanks_whitespace.
Defined.

(** X4. [ServerConfig.Validate] trims the four names in the configuration
    whether it accepts or not, leaves the version and the debug flag as
    they are, and validating its result again changes nothing and gives
    the same verdict. *)
Theorem ServerConfig_Validate_normalises :
  forall hs : ServerConfig,
    let hs' := fst (Validate hs) in
    hs' = mkServerConfig
            (gostrings.TrimSpace (Namespace hs))
            (gostrings.TrimSpace (Name hs))
            (Version hs)
            (gostrings.TrimSpace (Address hs))
            (gostrings.TrimSpace (ReplAddress hs))
            (Debug hs)
    /\ Validate hs' = (hs', snd (Validate hs)).
Proof.
  intros hs hs'.
  assert (E : hs' = mkServerConfig
                      (gostrings.TrimSpace (Namespace hs))
                      (gostrings.TrimSpace (Name hs))
                      (Version hs)
                      (gostrings.TrimSpace (Address hs))
                      (gostrings.TrimSpace (ReplAddress hs))
                      (Debug hs)).
  { subst hs'. unfold Validate. cbn [Namespace Name Address ReplAddress].
    repeat match goal with
           | |- context [if ?b then _ else _] => destruct b
           end; reflexivity. }
  split; [exact E |]. rewrite E. unfold Validate.
  cbn [Namespace Name Address ReplAddress Version Debug].
  rewrite !TrimSpace_idempotent.
  repeat match goal with
         | |- context [if ?b then _ else _] => destruct b
         end; reflexivity.
Qed.

End ServerConfig.

(** ** Validation and the selectors together *)

(** X5. A cache configuration that passed [CacheConfig.Validate] never
    makes [NewCache] build a Redis client with an empty address; the
    address is handed over as it is, untrimmed, so one made of blanks
    passes. *)
Theorem validated_redis_has_an_address :
  (forall cfg : config.CacheConfig,
      config.CacheConfig_Validate cfg = None ->
      forall addr user pass db,
        cache.store_ (cache.NewCache cfg) = RedisMarshaler addr user pass db ->
        addr = config.Cache_Address cfg /\ addr <> "")
  /\ config.CacheConfig_Validate (config.mkCacheConfig 2 10 "  " "" "" 0)
     = None.
Proof.
  split; [| reflexivity].
  intros cfg Hv addr user pass db Hs.
  unfold cache.NewCache in Hs. unfold config.CacheConfig_Validate in Hv.
  destruct (Z.eqb (config.Cache_Type cfg) 1); [discriminate Hs |].
  destruct (Z.eqb (config.Cache_Type cfg) 2); [| discriminate Hs].
  cbn in Hs. injection Hs as <- _ _ _. split; [reflexivity |].
  destruct (String.eqb_spec (config.Cache_Address cfg) "") as [E | E];
    [discriminate Hv | exact E].
Qed.

Lemma validated_redis_has_an_address_witness :
  "cache:6379" = config.Cache_Address
                   (config.mkCacheConfig 2 10 "cache:6379" "u" "p" 3)
  /\ "cache:6379" <> "".
Proof.
  destruct validated_redis_has_an_address as [H _].
  apply (H (config.mkCacheConfig 2 10 "cache:6379" "u" "p" 3) eq_refl
           "cache:6379" "u" "p" 3).
  reflexivity.
Defined.

Section Broker.
Import brokerconfig messaging.
Context {Registry : Type}.

(** X6. [NewBroker] builds subscribe options only for an enabled RabbitMQ
    broker (type 1); every other configuration gets the zero value, so
    the four acknowledgement flags have no effect there.  For RabbitMQ the
    options are those whose flag is set, always in the order disable
    auto-ack, ack on success, durable queue, requeue on error. *)
Theorem NewBroker_subscribe_options :
  forall (registry : Registry) (cfg : BrokerConfig),
    (Enable cfg = true /\ Type_ cfg = 1 ->
     SubOptions (NewBroker registry cfg)
     = NewSubscribeOptions
         (List.filter
            (fun o => match o with
                      | SubDisableAutoAck => DisableAutoAck cfg
                      | SubAckOnSuccess => AckOnSuccess cfg
                      | SubDurableQueue => Durable cfg
                      | SubRequeueOnError => RequeueOnError cfg
                      end)
            [SubDisableAutoAck; SubAckOnSuccess; SubDurableQueue;
             SubRequeueOnError]))
    /\ (~ (Enable cfg = true /\ Type_ cfg = 1) ->
        SubOptions (NewBroker registry cfg) = ZeroSubscribeOptions).
Proof.
  intros registry cfg. unfold NewBroker. split.
  - intros [He Ht]. rewrite He, Ht. cbn.
    destruct (DisableAutoAck cfg), (AckOnSuccess cfg), (Durable cfg),
      (RequeueOnError cfg); reflexivity.
  - intros H. destruct (Enable cfg); [| reflexivity]. cbn.
    destruct (Z.eqb_spec (Type_ cfg) 1) as [E | E];
      [exfalso; apply H; split; [reflexivity | exact E] |].
    destruct (Z.eqb (Type_ cfg) 2); reflexivity.
Qed.

(** X7. When [BrokerConfig.Validate] accepts a configuration for which
    [NewBroker] builds a RabbitMQ or NATS broker, the broker is given at
    least one address, together with the registry. *)
Theorem validated_remote_broker_has_addresses :
  forall (registry : Registry) (cfg : BrokerConfig),
    brokerconfig.Validate cfg = None ->
    is_remote (Broker_ (NewBroker registry cfg)) = true ->
    Addrs cfg <> []
    /\ In (OptAddrs (Addrs cfg))
          (broker_options (Broker_ (NewBroker registry cfg)))
    /\ In (OptRegistry registry)
          (broker_options (Broker_ (NewBroker registry cfg))).
Proof.
  intros registry cfg Hv Hr.
  unfold brokerconfig.Validate in Hv. unfold NewBroker in *.
  destruct (Enable cfg); cbn in *; [| discriminate Hr].
  assert (Hpos : 0 < Type_ cfg).
  { destruct (Z.eqb_spec (Type_ cfg) 1) as [E | E]; [lia |].
    destruct (Z.eqb_spec (Type_ cfg) 2) as [E2 | E2]; [lia |].
    discriminate Hr. }
  apply Z.ltb_lt in Hpos. rewrite Hpos in Hv.
  split.
  - intros Hnil. rewrite Hnil in Hv. discriminate Hv.
  - destruct (Z.eqb (Type_ cfg) 1); cbn; [auto |].
    destruct (Z.eqb (Type_ cfg) 2); cbn; auto.
Qed.

End Broker.

Lemma NewBroker_subscribe_options_witness :
  messaging.SubOptions
    (messaging.NewBroker tt
       (brokerconfig.mkBrokerConfig true ["amqp://q"] 1 false true true
          false))
  = messaging.NewSubscribeOptions
      [messaging.SubAckOnSuccess; messaging.SubDurableQueue].
Proof.
  destruct (NewBroker_subscribe_options tt
              (brokerconfig.mkBrokerConfig true ["amqp://q"] 1 false true
                 true false))
    as [H _].
  rewrite H; [reflexivity |]. split; reflexivity.
Defined.

Lemma validated_remote_broker_has_addresses_witness :
  brokerconfig.Addrs
    (brokerconfig.mkBrokerConfig true ["nats://n:4222"] 2 false false false
       false)
  <> [].
Proof.
  apply (validated_remote_broker_has_addresses tt
           (brokerconfig.mkBrokerConfig true ["nats://n:4222"] 2 false false
              false false));
    reflexivity.
Defined.


(** ** The pipe *)

Section PipeLaws.
Import functional.
Context {T S : Type} (zero : T).

Lemma Do_loop_app (c1 c2 : list (action T S)) res s :
  Do_loop (c1 ++ c2) res None s
  = match Do_loop c1 res None s with
    | (v, None, s1) => Do_loop c2 v None s1
    | (v, Some e, s1) => (v, Some e, s1)
    end.
Proof.
  revert res s. induction c1 as [| f c1 IH]; intros res s.
  - reflexivity.
  - simpl. destruct (f res s) as [[v [e |]] s1]; [reflexivity |].
    apply IH.
Qed.

(** X8. A freshly made pipe returns the zero value and no error.  A pipe
    extended by [Next] runs the earlier handlers first: if they end in an
    error, that result is returned and the new handler is not run (the
    captured state is as the failing handler left it); otherwise the new
    handler is run on their value and its result, value and error alike,
    is the result of the pipe. *)
Theorem Pipe_Do_Next :
  (forall s : S, Do zero NewPipe s = (zero, None, s))
  /\ (forall (p : Pipe T S) (f : action T S) (s : S),
         Do zero (Next p f) s
         = match Do zero p s with
           | (v, None, s1) => f v s1
           | (v, Some e, s1) => (v, Some e, s1)
           end).
Proof.
  split; [reflexivity |].
  intros p f s. unfold Do, Next. cbn [chain]. rewrite Do_loop_app.
  destruct (Do_loop (chain p) zero None s) as [[v [e |]] s1];
    [reflexivity |].
  simpl. destruct (f v s1) as [[v' [e' |]] s2]; reflexivity.
Qed.

(** X9. If the handlers up to some point succeed and the next one fails,
    [Do] returns what the failing handler returned, its value included (not
    the last good value), and nothing that comes later in the chain has
    any influence on the result or on the captured state. *)
Theorem Pipe_Do_stops_at_first_error :
  forall (c1 c2 : list (action T S)) (f : action T S)
         (s s1 s2 : S) (v v' : T) (e : Err),
    Do zero (mkPipe c1) s = (v, None, s1) ->
    f v s1 = (v', Some e, s2) ->
    Do zero (mkPipe (c1 ++ f :: c2)) s = (v', Some e, s2).
Proof.
  intros c1 c2 f s s1 s2 v v' e H1 Hf. unfold Do in *. cbn [chain] in *.
  rewrite Do_loop_app, H1. simpl. rewrite Hf. reflexivity.
Qed.

End PipeLaws.

Lemma Pipe_Do_stops_at_first_error_witness :
  functional.Do 0
    (functional.mkPipe
       ([fun (x : Z) (n : nat) => (x + 1, None, S n)]
        ++ (fun (x : Z) (n : nat) => (x * 10, Some (DriverError 7), S n))
        :: [fun (x : Z) (n : nat) => (x + 100, None, S n)])%list)
    0%nat
  = (10, Some (DriverError 7), 2%nat).
Proof.
  apply (Pipe_Do_stops_at_first_error 0
           [fun (x : Z) (n : nat) => (x + 1, None, S n)]
           [fun (x : Z) (n : nat) => (x + 100, None, S n)]
           (fun (x : Z) (n : nat) => (x * 10, Some (DriverError 7), S n))
           0%nat 1%nat 2%nat 1 10 (DriverError 7));
    reflexivity.
Defined.

(** ** The AES encryptor *)

Section AesKey.
Import crypto.

Lemma firstn_repeat {A : Type} (x : A) (k n : nat) :
  firstn k (repeat x n) = repeat x (Nat.min k n).
Proof.
  revert n. induction k as [| k IH]; intros [| n]; simpl; try reflexivity.
  f_equal. apply IH.
Qed.

Lemma validKey_length key : length (validKey key) = 32%nat.
Proof.
  unfold validKey. rewrite length_app, length_firstn, repeat_length. lia.
Qed.

Lemma validKey_firstn key : validKey (firstn 32 key) = validKey key.
Proof.
  unfold validKey. rewrite firstn_firstn, Nat.min_id, length_firstn.
  f_equal. f_equal. lia.
Qed.

Lemma validKey_zero_pad key n :
  (length key <= 32)%nat ->
  validKey (key ++ repeat Byte.x00 n) = validKey key.
Proof.
  intros Hlen. unfold validKey.
  rewrite firstn_app, (firstn_all2 key) by exact Hlen.
  rewrite firstn_repeat, length_app, repeat_length, <- app_assoc.
  f_equal. rewrite <- repeat_app. f_equal. lia.
Qed.

End AesKey.

Section Aes.
Import crypto.
Context {Block GCM : Type}
        (NewCipher : bytes -> CryptoErr + Block)
        (NewGCM : Block -> CryptoErr + GCM)
        (NonceSize : GCM -> nat)
        (Seal : GCM -> bytes -> bytes -> bytes)
        (Open : GCM -> bytes -> bytes -> CryptoErr + bytes)
        (ReadFull : nat -> CryptoErr + bytes)
        (EncodeToString : bytes -> bytes)
        (DecodeString : bytes -> CryptoErr + bytes).

Local Abbreviation encrypt :=
  (Encrypt Block GCM NewCipher NewGCM NonceSize Seal ReadFull
     EncodeToString).
Local Abbreviation decrypt :=
  (Decrypt Block GCM NewCipher NewGCM NonceSize Open DecodeString).

(** X10. The key the cipher is built from always has 32 bytes: bytes of
    the given key beyond the 32nd are ignored and a shorter key is padded
    with zero bytes.  So a key and its first 32 bytes, and a short key and
    the same key followed by zero bytes, encrypt and decrypt alike,
    whatever the library does. *)
Theorem aes_key_is_cut_and_padded :
  forall (text key : bytes) (n : nat),
    length (validKey key) = 32%nat
    /\ encrypt text (firstn 32 key) = encrypt text key
    /\ decrypt text (firstn 32 key) = decrypt text key
    /\ ((length key <= 32)%nat ->
        encrypt text (key ++ repeat Byte.x00 n) = encrypt text key
        /\ decrypt text (key ++ repeat Byte.x00 n) = decrypt text key).
Proof.
  intros text key n. unfold Encrypt, Decrypt.
  rewrite validKey_firstn. split; [apply validKey_length |].
  split; [reflexivity |]. split; [reflexivity |].
  intros Hlen. rewrite (validKey_zero_pad key n Hlen).
  split; reflexivity.
Qed.

(** X11. [Decrypt] never reports a failed authentication.  The only errors
    it returns are those of the cipher construction and of the base64
    decoding, and [ErrInvalidNonceSize] for an input shorter than the
    nonce; when [gcm.Open] rejects the ciphertext, [Decrypt] returns the
    empty text and a nil error. *)
Theorem aes_Decrypt_errors :
  forall (text key : bytes),
    (forall e, snd (decrypt text key) = Some e ->
       NewCipher (validKey key) = inl e
       \/ (exists c, NewCipher (validKey key) = inr c /\ NewGCM c = inl e)
       \/ DecodeString text = inl e
       \/ (e = ErrInvalidNonceSize
           /\ exists c g buf,
                NewCipher (validKey key) = inr c /\ NewGCM c = inr g
                /\ DecodeString text = inr buf
                /\ (length buf < NonceSize g)%nat))
    /\ (forall c g buf e,
           NewCipher (validKey key) = inr c -> NewGCM c = inr g ->
           DecodeString text = inr buf ->
           (NonceSize g <= length buf)%nat ->
           Open g (firstn (NonceSize g) buf) (skipn (NonceSize g) buf)
           = inl e ->
           decrypt text key = ([], None)).
Proof.
  intros text key. unfold Decrypt. split.
  - intros e.
    destruct (NewCipher (validKey key)) as [e1 | c] eqn:Ec.
    { intros [= <-]. left. reflexivity. }
    destruct (NewGCM c) as [e2 | g] eqn:Eg.
    { intros [= <-]. right. left. exists c.
      split; [reflexivity | exact Eg]. }
    destruct (DecodeString text) as [e3 | buf] eqn:Ed.
    { intros [= <-]. right. right. left. reflexivity. }
    destruct (Nat.ltb_spec (length buf) (NonceSize g)) as [Hlt | Hge].
    { intros [= <-]. right. right. right. split; [reflexivity |].
      exists c, g, buf. auto. }
    destruct (Open g _ _); intros H; discriminate H.
  - intros c g buf e Ec Eg Ed Hlen Ho. rewrite Ec, Eg, Ed.
    destruct (Nat.ltb_spec (length buf) (NonceSize g)) as [Hlt | Hge];
      [lia |].
    rewrite Ho. reflexivity.
Qed.

(** What is assumed of the library for a round trip: the random reader
    fills the whole buffer, opening what was sealed under the same nonce
    gives the plaintext back, and base64 decodes what it encoded. *)
Hypothesis ReadFull_length :
  forall n bs, ReadFull n = inr bs -> length bs = n.
Hypothesis Open_Seal :
  forall g nonce plaintext,
    Open g nonce (Seal g nonce plaintext) = inr plaintext.
Hypothesis Decode_Encode :
  forall b, DecodeString (EncodeToString b) = inr b.

(** X12. What [Encrypt] produced without error, [Decrypt] turns back into
    the text, without error, under the same key or any key with the same
    first 32 bytes after zero padding. *)
Theorem aes_Decrypt_Encrypt :
  forall (text key key' ciphertext : bytes),
    encrypt text key = (ciphertext, None) ->
    validKey key' = validKey key ->
    decrypt ciphertext key' = (text, None).
Proof.
  intros text key key' ciphertext He Hk. unfold Encrypt in He.
  unfold Decrypt. rewrite Hk.
  destruct (NewCipher (validKey key)) as [e1 | c]; [discriminate He |].
  destruct (NewGCM c) as [e2 | g]; [discriminate He |].
  destruct (ReadFull (NonceSize g)) as [e3 | nonce] eqn:Er;
    [discriminate He |].
  injection He as <-. rewrite Decode_Encode.
  pose proof (ReadFull_length _ _ Er) as Hn.
  destruct (Nat.ltb_spec (length (nonce ++ Seal g nonce text)) (NonceSize g))
    as [Hlt | Hge]; [rewrite length_app in Hlt; lia |].
  rewrite <- Hn at 1 2.
  rewrite firstn_app, Nat.sub_diag, firstn_all, firstn_O, app_nil_r.
  rewrite skipn_app, Nat.sub_diag, skipn_all, skipn_O. cbn [app].
  rewrite Open_Seal. reflexivity.
Qed.

End Aes.

Lemma aes_key_is_cut_and_padded_witness :
  crypto.Encrypt _ _ cryptostub.NewCipher cryptostub.NewGCM
    cryptostub.NonceSize cryptostub.Seal cryptostub.ReadFull
    cryptostub.EncodeToString [Byte.x68; Byte.x69]
    ([Byte.x6b] ++ repeat Byte.x00 5)
  = crypto.Encrypt _ _ cryptostub.NewCipher cryptostub.NewGCM
      cryptostub.NonceSize cryptostub.Seal cryptostub.ReadFull
      cryptostub.EncodeToString [Byte.x68; Byte.x69] [Byte.x6b].
Proof.
  destruct (aes_key_is_cut_and_padded cryptostub.NewCipher
              cryptostub.NewGCM cryptostub.NonceSize cryptostub.Seal
              cryptostub.Open cryptostub.ReadFull cryptostub.EncodeToString
              cryptostub.DecodeString [Byte.x68; Byte.x69] [Byte.x6b] 5)
    as (_ & _ & _ & H).
  apply H. apply Nat.leb_le. reflexivity.
Defined.

Lemma aes_Decrypt_errors_witness :
  crypto.Decrypt _ _ cryptostub.NewCipher cryptostub.NewGCM
    cryptostub.NonceSize cryptostub.Open cryptostub.DecodeString
    (repeat Byte.x2a 12 ++ [Byte.x68; Byte.x69; Byte.x21]) [Byte.x6b]
  = ([], None).
Proof.
  destruct (aes_Decrypt_errors cryptostub.NewCipher cryptostub.NewGCM
              cryptostub.NonceSize cryptostub.Open cryptostub.DecodeString
              (repeat Byte.x2a 12 ++ [Byte.x68; Byte.x69; Byte.x21])
              [Byte.x6b]) as [_ H].
  apply (H (crypto.validKey [Byte.x6b]) (crypto.validKey [Byte.x6b])
           (repeat Byte.x2a 12 ++ [Byte.x68; Byte.x69; Byte.x21])
           (crypto.LibraryError 2)); try reflexivity.
  apply Nat.leb_le. reflexivity.
Defined.

Lemma cryptostub_Open_Seal g nonce plaintext :
  cryptostub.Open g nonce (cryptostub.Seal g nonce plaintext)
  = inr plaintext.
Proof.
  unfold cryptostub.Open, cryptostub.Seal. rewrite rev_app_distr. simpl.
  rewrite (Byte.byte_dec_lb eq_refl), rev_involutive. reflexivity.
Qed.

Lemma cryptostub_ReadFull_length n bs :
  cryptostub.ReadFull n = inr bs -> length bs = n.
Proof. intros [= <-]. apply repeat_length. Qed.

Lemma aes_Decrypt_Encrypt_witness :
  crypto.Decrypt _ _ cryptostub.NewCipher cryptostub.NewGCM
    cryptostub.NonceSize cryptostub.Open cryptostub.DecodeString
    (repeat Byte.x2a 12 ++ [Byte.x68; Byte.x69; Byte.x6b])
    [Byte.x6b; Byte.x00]
  = ([Byte.x68; Byte.x69], None).
Proof.
  apply (aes_Decrypt_Encrypt cryptostub.NewCipher cryptostub.NewGCM
           cryptostub.NonceSize cryptostub.Seal cryptostub.Open
           cryptostub.ReadFull cryptostub.EncodeToString
           cryptostub.DecodeString
           cryptostub_ReadFull_length cryptostub_Open_Seal
           (fun b => eq_refl)
           [Byte.x68; Byte.x69] [Byte.x6b] [Byte.x6b; Byte.x00]).
  - reflexivity.
  - reflexivity.
Defined.

(** ** Hexadecimal digests and the oauth state *)

Section Hex.
Import crypto.

Lemma hexDigit_lower_hex n : is_lower_hex (hexDigit n) = true.
Proof.
  unfold hexDigit. generalize (N.to_nat n). intros m.
  do 16 (destruct m as [| m]; [reflexivity |]).
  destruct m; reflexivity.
Qed.

Lemma hexEncodeToString_length src :
  length (hexEncodeToString src) = (2 * length src)%nat.
Proof.
  unfold hexEncodeToString.
  rewrite (flat_map_constant_length (c:=2)) by reflexivity. lia.
Qed.

Lemma hexEncodeToString_lower_hex src :
  forallb is_lower_hex (hexEncodeToString src) = true.
Proof.
  induction src as [| b src IH]; [reflexivity |].
  cbn [hexEncodeToString flat_map hexEncodeByte app forallb].
  rewrite !hexDigit_lower_hex. exact IH.
Qed.

(** Distinct nibbles have distinct digits. *)
Lemma hexDigit_injective n m :
  (n < 16)%N -> (m < 16)%N -> hexDigit n = hexDigit m -> n = m.
Proof.
  intros Hn Hm H. apply N2Nat.inj. unfold hexDigit in H.
  assert (Hn' : (N.to_nat n < 16)%nat) by lia.
  assert (Hm' : (N.to_nat m < 16)%nat) by lia.
  revert H Hn' Hm'. generalize (N.to_nat n) (N.to_nat m). clear.
  intros a b H Ha Hb.
  do 16 (destruct a as [| a];
         [do 16 (destruct b as [| b];
                 [first [reflexivity | discriminate H] |]); lia |]).
  lia.
Qed.

Lemma hexEncodeByte_injective b1 b2 :
  hexEncodeByte b1 = hexEncodeByte b2 -> b1 = b2.
Proof.
  unfold hexEncodeByte. intros H. injection H as Hhi Hlo.
  pose proof (Byte.to_N_bounded b1) as B1.
  pose proof (Byte.to_N_bounded b2) as B2.
  assert (E : Byte.to_N b1 = Byte.to_N b2).
  { rewrite !N.shiftr_div_pow2 in Hhi.
    change 15%N with (N.ones 4) in Hlo. rewrite !N.land_ones in Hlo.
    apply hexDigit_injective in Hhi;
      [| apply N.Div0.div_lt_upper_bound; lia
       | apply N.Div0.div_lt_upper_bound; lia].
    apply hexDigit_injective in Hlo;
      [| apply N.mod_lt; discriminate | apply N.mod_lt; discriminate].
    rewrite (N.div_mod (Byte.to_N b1) (2 ^ 4)) by discriminate.
    rewrite (N.div_mod (Byte.to_N b2) (2 ^ 4)) by discriminate.
    rewrite Hhi, Hlo. reflexivity. }
  pose proof (Byte.of_to_N b1) as O1. rewrite E, Byte.of_to_N in O1.
  congruence.
Qed.

Lemma hexEncodeToString_injective a b :
  hexEncodeToString a = hexEncodeToString b -> a = b.
Proof.
  revert b. induction a as [| x a IH]; intros [| y b] H;
    try reflexivity; try discriminate H.
  cbn [hexEncodeToString flat_map hexEncodeByte app] in H.
  injection H as H1 H2 H3. f_equal.
  - apply hexEncodeByte_injective. unfold hexEncodeByte. congruence.
  - apply IH. exact H3.
Qed.

(** X13. For a digest function returning 16 bytes, as [md5.Sum] does,
    [Hash] returns 32 lower-case hexadecimal digits whatever the text, and
    two texts have the same hash exactly when they have the same digest:
    the hexadecimal encoding loses nothing. *)
Theorem Hash_is_32_hex_digits :
  forall (md5Sum : bytes -> bytes),
    (forall text, length (md5Sum text) = 16%nat) ->
    forall text text',
      length (Hash md5Sum text) = 32%nat
      /\ forallb is_lower_hex (Hash md5Sum text) = true
      /\ (Hash md5Sum text = Hash md5Sum text'
          <-> md5Sum text = md5Sum text').
Proof.
  intros md5Sum Hlen text text'. unfold Hash.
  rewrite hexEncodeToString_length, Hlen.
  split; [reflexivity |]. split; [apply hexEncodeToString_lower_hex |].
  split; [apply hexEncodeToString_injective | intros ->; reflexivity].
Qed.

Lemma lower_hex_unreserved b : is_lower_hex b = true -> unreserved b = true.
Proof.
  unfold is_lower_hex, unreserved. generalize (Byte.to_N b). intros n H.
  repeat match goal with
         | |- context [N.leb ?a ?b] => destruct (N.leb_spec a b)
         | |- context [N.eqb ?a ?b] => destruct (N.eqb_spec a b)
         | H : context [N.leb ?a ?b] |- _ => destruct (N.leb_spec a b)
         end; cbn in *; try reflexivity; try discriminate; lia.
Qed.

Lemma lower_hex_not_plus b :
  is_lower_hex b = true -> negb (N.eqb (Byte.to_N b) 43) = true.
Proof.
  unfold is_lower_hex. generalize (Byte.to_N b). intros n H.
  destruct (N.eqb_spec n 43) as [-> | _]; [discriminate H | reflexivity].
Qed.

Lemma removePlus_lower_hex s :
  forallb is_lower_hex s = true -> removePlus s = s.
Proof.
  induction s as [| b s IH]; [reflexivity |].
  cbn [forallb removePlus List.filter]. intros H.
  apply andb_prop in H as [Hb Hs].
  rewrite (lower_hex_not_plus b Hb). f_equal. apply IH, Hs.
Qed.

Lemma QueryEscape_lower_hex s :
  forallb is_lower_hex s = true -> QueryEscape s = s.
Proof.
  induction s as [| b s IH]; [reflexivity |].
  cbn [forallb QueryEscape flat_map]. intros H.
  apply andb_prop in H as [Hb Hs].
  unfold escapeByte. rewrite (lower_hex_unreserved b Hb).
  cbn [app]. f_equal. apply IH, Hs.
Qed.

Section State.
Context (randRead : nat -> CryptoErr + bytes)
        (hmacSHA256 : bytes -> bytes -> CryptoErr + bytes)
        (EncodeToString : bytes -> bytes).

Local Abbreviation generate :=
  (GenerateState randRead hmacSHA256 EncodeToString).

(** X14. When the random reader and the HMAC work, [GenerateState]
    returns, without error, the escaped base64 MAC with its plus signs
    removed, a dot, and then the 128 lower-case hexadecimal digits of the
    64 random bytes, unchanged by the removal of plus signs and by the
    escaping; the MAC is computed over those digits with the secret as the
    key.  When the random reader or the HMAC fails, the state is empty and
    the error is theirs. *)
Theorem GenerateState_shape :
  forall secret : bytes,
    (forall ts sum,
        randRead 64 = inr ts -> length ts = 64%nat ->
        hmacSHA256 secret (hexEncodeToString ts) = inr sum ->
        generate secret
        = (QueryEscape (removePlus (EncodeToString sum))
             ++ [Byte.x2e] ++ hexEncodeToString ts, None)
        /\ length (hexEncodeToString ts) = 128%nat
        /\ forallb is_lower_hex (hexEncodeToString ts) = true)
    /\ (forall e, randRead 64 = inl e -> generate secret = ([], Some e))
    /\ (forall ts e,
           randRead 64 = inr ts ->
           hmacSHA256 secret (hexEncodeToString ts) = inl e ->
           generate secret = ([], Some e)).
Proof.
  intros secret. unfold GenerateState, randomHex, hmacBase64.
  split; [| split].
  - intros ts sum Hr Hlen Hm. rewrite Hr, Hm.
    pose proof (hexEncodeToString_lower_hex ts) as Hhex.
    split; [| split; [rewrite hexEncodeToString_length, Hlen; reflexivity
                     | exact Hhex]].
    f_equal. unfold removePlus. rewrite !List.filter_app.
    fold (removePlus (EncodeToString sum)).
    fold (removePlus (hexEncodeToString ts)).
    rewrite (removePlus_lower_hex _ Hhex).
    unfold QueryEscape. rewrite !flat_map_app.
    fold (QueryEscape (hexEncodeToString ts)).
    rewrite (QueryEscape_lower_hex _ Hhex). reflexivity.
  - intros e Hr. rewrite Hr. reflexivity.
  - intros ts e Hr Hm. rewrite Hr, Hm. reflexivity.
Qed.

End State.
End Hex.

Lemma Hash_is_32_hex_digits_witness :
  length (crypto.Hash cryptostub.md5Sum [Byte.x61]) = 32%nat.
Proof.
  apply (Hash_is_32_hex_digits cryptostub.md5Sum
           (fun _ => repeat_length Byte.x00 16) [Byte.x61] []).
Defined.

Lemma GenerateState_shape_witness :
  length (crypto.hexEncodeToString (repeat Byte.x2a 64)) = 128%nat.
Proof.
  destruct (GenerateState_shape (fun n => inr (repeat Byte.x2a n))
              cryptostub.hmacSHA256 cryptostub.EncodeToString [Byte.x73])
    as (H & _ & _).
  apply (H (repeat Byte.x2a 64)
           (firstn 32 ([Byte.x73]
                       ++ crypto.hexEncodeToString (repeat Byte.x2a 64)
                       ++ repeat Byte.x00 32)));
    reflexivity.
Defined.

(** ** More on the document-oriented store *)

(** X15. [Read] of the document-oriented store looks at the table, the key,
    the value and the result target only: two calls whose options agree on
    these four are the same command tree, whatever their database, prefix,
    suffix, limit and offset, and so get the same answers from any
    driver. *)
Theorem mongo_Read_uses_table_key_value :
  forall s ctx opts1 opts2,
    let o1 := applyOpts opts1 ReadOptions.zero in
    let o2 := applyOpts opts2 ReadOptions.zero in
    ReadOptions.Table o1 = ReadOptions.Table o2 ->
    ReadOptions.Key o1 = ReadOptions.Key o2 ->
    ReadOptions.Value o1 = ReadOptions.Value o2 ->
    ReadOptions.Result o1 = ReadOptions.Result o2 ->
    mongo.Read s ctx opts1 = mongo.Read s ctx opts2
    /\ forall (W : Type) (h : handler W) (w : W),
         run h (mongo.Read s ctx opts1) w = run h (mongo.Read s ctx opts2) w.
Proof.
  intros s ctx opts1 opts2 o1 o2 Ht Hk Hv Hr.
  assert (E : mongo.Read s ctx opts1 = mongo.Read s ctx opts2).
  { unfold mongo.Read. fold o1 o2. rewrite Ht, Hk, Hv, Hr. reflexivity. }
  split; [exact E |]. intros W h w. rewrite E. reflexivity.
Qed.

Lemma mongo_Read_uses_table_key_value_witness :
  mongo.Read mongo.NewMongoStore Background
    [storage.ReadFrom "db" "files"; storage.ReadKey "id";
     storage.ReadValue "7"; storage.ReadLimit 1; storage.ReadPrefix "p"]
  = mongo.Read mongo.NewMongoStore Background
      [storage.ReadKey "id"; storage.ReadValue "7";
       storage.ReadFrom "elsewhere" "files"; storage.ReadOffset 9].
Proof.
  apply (mongo_Read_uses_table_key_value mongo.NewMongoStore Background
           [storage.ReadFrom "db" "files"; storage.ReadKey "id";
            storage.ReadValue "7"; storage.ReadLimit 1;
            storage.ReadPrefix "p"]
           [storage.ReadKey "id"; storage.ReadValue "7";
            storage.ReadFrom "elsewhere" "files"; storage.ReadOffset 9]);
    reflexivity.
Defined.

(** X16. The mutating methods of the document-oriented store never look
    at the database, the expiry or the ttl of their options: [Write]
    depends on the table alone, [Update] and [Delete] on the table, the
    key and the value. *)
Theorem mongo_mutations_ignore_expiry :
  (forall s ctx payload opts1 opts2,
      WriteOptions.Table (applyOpts opts1 WriteOptions.zero)
      = WriteOptions.Table (applyOpts opts2 WriteOptions.zero) ->
      mongo.Write s ctx payload opts1 = mongo.Write s ctx payload opts2)
  /\ (forall s ctx payload opts1 opts2,
         let o1 := applyOpts opts1 WriteOptions.zero in
         let o2 := applyOpts opts2 WriteOptions.zero in
         WriteOptions.Table o1 = WriteOptions.Table o2 ->
         WriteOptions.Key o1 = WriteOptions.Key o2 ->
         WriteOptions.Value o1 = WriteOptions.Value o2 ->
         mongo.Update s ctx payload opts1 = mongo.Update s ctx payload opts2)
  /\ (forall s ctx opts1 opts2,
         let o1 := applyOpts opts1 DeleteOptions.zero in
         let o2 := applyOpts opts2 DeleteOptions.zero in
         DeleteOptions.Table o1 = DeleteOptions.Table o2 ->
         DeleteOptions.Key o1 = DeleteOptions.Key o2 ->
         DeleteOptions.Value o1 = DeleteOptions.Value o2 ->
         mongo.Delete s ctx opts1 = mongo.Delete s ctx opts2).
Proof.
  split; [| split].
  - intros s ctx payload opts1 opts2 Ht. unfold mongo.Write.
    rewrite Ht. reflexivity.
  - intros s ctx payload opts1 opts2 o1 o2 Ht Hk Hv. unfold mongo.Update.
    fold o1 o2. rewrite Ht, Hk, Hv. reflexivity.
  - intros s ctx opts1 opts2 o1 o2 Ht Hk Hv. unfold mongo.Delete.
    fold o1 o2. rewrite Ht, Hk, Hv. reflexivity.
Qed.

Lemma mongo_mutations_ignore_expiry_witness :
  mongo.Write mongo.NewMongoStore Background (Ptr 1)
    [storage.WriteTo "db" "files"; storage.WriteTTL 5;
     storage.WriteExpiry 100]
  = mongo.Write mongo.NewMongoStore Background (Ptr 1)
      [storage.WriteTo "other" "files"].
Proof.
  destruct mongo_mutations_ignore_expiry as (H & _ & _).
  apply (H mongo.NewMongoStore Background (Ptr 1)
           [storage.WriteTo "db" "files"; storage.WriteTTL 5;
            storage.WriteExpiry 100]
           [storage.WriteTo "other" "files"]).
  reflexivity.
Defined.

Section MoreMongo.
Context {W : Type} (h : handler W).

(** X17. [List] closes its cursor only on the path where everything went
    well: a [CursorClose] is requested exactly when the query succeeded,
    a result target was given and [cur.All] answered nil.  After a
    successful query, a missing result target or a failing [cur.All] makes
    [List] return without asking to close the cursor. *)
Theorem mongo_List_closes_cursor_on_success_only :
  forall s ctx opts (w : W),
    let ops := applyOpts opts ReadOptions.zero in
    let q := Find ctx (ReadOptions.Table ops) []
               (int64 (ReadOptions.Offset ops))
               (int64 (ReadOptions.Limit ops)) in
    existsb (fun e => match ev_call e with
                      | CursorClose _ _ => true
                      | _ => false
                      end)
            (trace (run h (mongo.List s ctx opts) w)) = true
    <-> exists cur,
          fst (h _ q w) = inr cur
          /\ ReadOptions.Result ops <> Nil
          /\ fst (h _ (CursorAll cur ctx (ReadOptions.Result ops))
                    (snd (h _ q w))) = None.
Proof.
  intros s ctx opts w ops q. unfold mongo.List. fold ops. fold q.
  rewrite run_Do. cbn [trace existsb ev_call orb].
  destruct (fst (h _ q w)) as [err | cur] eqn:Eq; cbn [run trace existsb].
  { split; [discriminate |]. intros (cur & Hc & _). discriminate Hc. }
  destruct (ReadOptions.Result ops) as [| a | a] eqn:Er; cbn [is_nil].
  { cbn [run trace existsb]. split; [discriminate |].
    intros (c & _ & Hn & _). contradiction. }
  all: rewrite run_Do; cbn [trace existsb ev_call orb];
    match goal with
    | |- context [fst (h error ?c ?w')] =>
        destruct (fst (h error c w')) as [err |] eqn:Ea
    end;
    [ cbn [run trace existsb]; split; [discriminate |];
      intros (c & [= <-] & _ & Hall); rewrite Ea in Hall; discriminate Hall
    | rewrite run_Do; cbn [trace existsb ev_call orb]; split; [| reflexivity];
      intros _; exists cur; split; [reflexivity |];
      split; [discriminate | exact Ea] ].
Qed.

(** X18. Once [Init] of the document-oriented store has returned, with or
    without an error, the store holds at least one node.  A later [Init]
    whose options leave the node list as it is, such as no option at all
    or [store.Database], does not panic: it configures the driver again
    with the first node kept from before, under the database the options
    leave.  A later [Init] given [store.Nodes()] with no address replaces
    the kept nodes by the empty list and panics on the index, before any
    request; given addresses, it connects to the first of them. *)
Theorem mongo_Init_keeps_its_nodes :
  forall s opts (w : W) s1 e,
    outcome (run h (mongo.Init s opts) w) = Returned (s1, e) ->
    exists node0 rest,
      store.Nodes (mongo.options s1) = node0 :: rest
      /\ (forall opts2,
             store.Nodes (applyOpts opts2 (mongo.options s1))
             = store.Nodes (mongo.options s1) ->
             mongo.Init s1 opts2
             = (call e' <- SetDefaultConfig (3 * Second)
                             (store.Database
                                (applyOpts opts2 (mongo.options s1)))
                             node0 ;;
                Ret (mongo.mkMongoStore
                       (applyOpts opts2 (mongo.options s1)), e')))
      /\ mongo.Init s1 []
         = (call e' <- SetDefaultConfig (3 * Second)
                         (store.Database (mongo.options s1)) node0 ;;
            Ret (s1, e'))
      /\ (forall db,
             mongo.Init s1 [store.WithDatabase db]
             = (call e' <- SetDefaultConfig (3 * Second) db node0 ;;
                Ret (mongo.mkMongoStore
                       (store.mkOptions (node0 :: rest) db
                          (store.Table (mongo.options s1))), e')))
      /\ mongo.Init s1 [store.WithNodes []]
         = Abort (PanicIndexOutOfRange 0 0)
      /\ (forall a more,
             mongo.Init s1 [store.WithNodes (a :: more)]
             = (call e' <- SetDefaultConfig (3 * Second)
                             (store.Database (mongo.options s1)) a ;;
                Ret (mongo.mkMongoStore
                       (store.mkOptions (a :: more)
                          (store.Database (mongo.options s1))
                          (store.Table (mongo.options s1))), e'))).
Proof.
  intros s opts w s1 e. unfold mongo.Init at 1. unfold mongo.configure.
  cbn [mongo.options].
  destruct (store.Nodes (applyOpts opts (mongo.options s)))
    as [| node0 rest] eqn:En.
  { cbn. discriminate. }
  cbn [bind]. rewrite run_Do. cbn. intros [= <- _].
  exists node0, rest. split; [exact En |].
  split; [| split; [| split; [| split]]].
  - intros opts2 Hkeep. unfold mongo.Init, mongo.configure.
    cbn [mongo.options]. cbn [mongo.options] in Hkeep.
    rewrite Hkeep, En. reflexivity.
  - unfold mongo.Init, mongo.configure. cbn. rewrite En. reflexivity.
  - intros db. unfold mongo.Init, mongo.configure. cbn. rewrite En.
    unfold store.WithDatabase. rewrite En. reflexivity.
  - reflexivity.
  - intros a more. reflexivity.
Qed.

Ltac answer :=
  match goal with
  | |- context [match fst (h (Err + Session)%type ?c ?w) with _ => _ end] =>
      let r := fresh "r" in
      let E := fresh "E" in
      destruct (fst (h _ c w)) as [r | r] eqn:E
  | |- context [match fst (h error ?c ?w) with _ => _ end] =>
      let r := fresh "r" in
      let E := fresh "E" in
      destruct (fst (h error c w)) as [r |] eqn:E
  end.

Ltac unroll :=
  repeat first [ answer
               | rewrite run_Do
               | progress cbn [outcome final trace bind] ];
  cbn [run outcome final trace].

(** X19. A mutating call on the document-oriented store returns nil
    exactly when it issued a commit and the commit answered nil; in every
    other case it returns an error (that of the session, of the
    transaction, of the document operation or of the commit). *)
Theorem mongo_mutation_succeeds_iff_committed :
  forall (s : mongo.mongoStore) (ctx : Context) (m : Mutation) (w : W),
    let r := run h (mongo_mutate s ctx m) w in
    (outcome r = Returned None
     <-> existsb (fun e => is_commit e
                           && match reply_error e with
                              | None => true
                              | Some _ => false
                              end)
                 (trace r) = true)
    /\ (outcome r <> Returned None -> exists err, outcome r = Returned (Some err)).
Proof.
  intros s ctx [payload opts | payload opts | opts] w;
    cbn [mongo_mutate RefinedStore_Write RefinedStore_Update
           RefinedStore_Delete];
    unfold mongo.Write, mongo.Update, mongo.Delete, TransactionWithCtx;
    unroll;
    try match goal with
        | |- context [fst (h error (CommitTransaction ?a ?b) ?w')] =>
            destruct (fst (h error (CommitTransaction a b) w'))
        end;
    cbn; (split; [split |]); intros H;
    try reflexivity; try discriminate H; try congruence;
    try (eexists; reflexivity); try (exfalso; apply H; reflexivity).
Qed.

End MoreMongo.

Lemma mongo_Init_keeps_its_nodes_witness :
  let s1 := mongo.mkMongoStore (store.mkOptions ["mongodb://h"] "db" "") in
  outcome (run memdriver.handle
             (mongo.Init mongo.NewMongoStore
                [store.WithDatabase "db"; store.WithNodes ["mongodb://h"]])
             memdriver.start)
  = Returned (s1, None)
  /\ exists node0 rest,
       store.Nodes (mongo.options s1) = node0 :: rest
       /\ trace (run memdriver.handle
                   (mongo.Init s1 [store.WithDatabase "other"])
                   memdriver.start)
          = [Ev (SetDefaultConfig (3 * Second) "other" node0) None]
       /\ run memdriver.handle (mongo.Init s1 [store.WithNodes []])
            memdriver.start
          = mkRun (Aborted (PanicIndexOutOfRange 0 0)) memdriver.start [].
Proof.
  intros s1. split; [reflexivity |].
  destruct (mongo_Init_keeps_its_nodes memdriver.handle
              mongo.NewMongoStore
              [store.WithDatabase "db"; store.WithNodes ["mongodb://h"]]
              memdriver.start s1 None eq_refl)
    as (node0 & rest & H & Hkeep & _ & _ & Hpanic & _).
  exists node0, rest. split; [exact H |]. split.
  - rewrite (Hkeep [store.WithDatabase "other"] eq_refl).
    injection H as <- _. reflexivity.
  - rewrite Hpanic. reflexivity.
Defined.

(** ** Conversions of machine integers *)

Lemma int64_small z : 0 <= z < 2 ^ 63 -> int64 z = z.
Proof.
  intros H. unfold int64. rewrite Z.mod_small by lia. lia.
Qed.

Lemma int64_large z : 2 ^ 63 <= z < 2 ^ 64 -> int64 z = z - 2 ^ 64.
Proof.
  intros H. unfold int64.
  replace (z + 2 ^ 63) with (z - 2 ^ 63 + 1 * 2 ^ 64) by lia.
  rewrite Z_mod_plus_full, Z.mod_small by lia. lia.
Qed.

(** X20. The offset and the limit of [List] are unsigned and are converted
    to signed 64-bit numbers for the driver: below 2^63 they arrive
    unchanged, from 2^63 on they arrive as negative numbers (the value
    minus 2^64). *)
Theorem mongo_List_paging_conversion :
  forall s ctx opts,
    let ops := applyOpts opts ReadOptions.zero in
    exists skip limit k,
      mongo.List s ctx opts
      = Do (Find ctx (ReadOptions.Table ops) [] skip limit) k
      /\ (0 <= ReadOptions.Offset ops < 2 ^ 63 ->
          skip = ReadOptions.Offset ops)
      /\ (2 ^ 63 <= ReadOptions.Offset ops < 2 ^ 64 ->
          skip = ReadOptions.Offset ops - 2 ^ 64 /\ skip < 0)
      /\ (0 <= ReadOptions.Limit ops < 2 ^ 63 ->
          limit = ReadOptions.Limit ops)
      /\ (2 ^ 63 <= ReadOptions.Limit ops < 2 ^ 64 ->
          limit = ReadOptions.Limit ops - 2 ^ 64 /\ limit < 0).
Proof.
  intros s ctx opts ops.
  exists (int64 (ReadOptions.Offset ops)), (int64 (ReadOptions.Limit ops)).
  eexists. split; [reflexivity |].
  split; [apply int64_small |].
  split; [intros H; rewrite (int64_large _ H); lia |].
  split; [apply int64_small |].
  intros H. rewrite (int64_large _ H). lia.
Qed.

Lemma mongo_List_paging_conversion_witness :
  exists skip limit k,
    mongo.List mongo.NewMongoStore Background
      [storage.ReadFrom "db" "files"; storage.ReadOffset (2 ^ 63);
       storage.ReadLimit 10]
    = Do (Find Background "files" [] skip limit) k
    /\ skip = - 2 ^ 63 /\ limit = 10.
Proof.
  destruct (mongo_List_paging_conversion mongo.NewMongoStore Background
              [storage.ReadFrom "db" "files"; storage.ReadOffset (2 ^ 63);
               storage.ReadLimit 10])
    as (skip & limit & k & E & _ & Hs & Hl & _).
  exists skip, limit, k. split; [exact E |]. split.
  - destruct Hs as [Hs _]; [vm_compute; split; congruence |].
    rewrite Hs. reflexivity.
  - apply Hl. vm_compute. split; congruence.
Defined.

(** X21. The size of the local cache is a number of megabytes: for a size
    from 0 up to 2^43 - 1 the buffer [NewCache] asks for has exactly
    size * 1048576 bytes; from 2^43 up to 2^44 - 1 the multiplication
    wraps around and the number of bytes asked for is negative. *)
Theorem NewCache_buffer_bytes :
  forall cfg : config.CacheConfig,
    config.Cache_Type cfg <> 2 ->
    (0 <= config.Cache_Size cfg < 2 ^ 43 ->
     cache.store_ (cache.NewCache cfg)
     = FreecacheMarshaler (config.Cache_Size cfg * 1048576) (10 * Second))
    /\ (2 ^ 43 <= config.Cache_Size cfg < 2 ^ 44 ->
        cache.store_ (cache.NewCache cfg)
        = FreecacheMarshaler (config.Cache_Size cfg * 1048576 - 2 ^ 64)
            (10 * Second)
        /\ config.Cache_Size cfg * 1048576 - 2 ^ 64 < 0).
Proof.
  intros cfg Ht.
  assert (E : cache.store_ (cache.NewCache cfg)
              = FreecacheMarshaler
                  (int64 (int64 (config.Cache_Size cfg * 1024) * 1024))
                  (10 * Second)).
  { unfold cache.NewCache.
    destruct (Z.eqb (config.Cache_Type cfg) 1); [reflexivity |].
    destruct (Z.eqb_spec (config.Cache_Type cfg) 2); [contradiction |].
    reflexivity. }
  rewrite E. split; intros H.
  - rewrite (int64_small (config.Cache_Size cfg * 1024)) by lia.
    rewrite int64_small by lia. f_equal. lia.
  - rewrite (int64_small (config.Cache_Size cfg * 1024)) by lia.
    rewrite int64_large by lia. split; [f_equal; lia | lia].
Qed.

Lemma NewCache_buffer_bytes_witness :
  cache.store_ (cache.NewCache (config.mkCacheConfig 1 10 "" "" "" 0))
  = FreecacheMarshaler 10485760 (10 * Second).
Proof.
  destruct (NewCache_buffer_bytes (config.mkCacheConfig 1 10 "" "" "" 0))
    as [H _].
  - discriminate.
  - apply H. vm_compute. split; congruence.
Defined.
